(** * Shared token cache credential: [get_token]

    A shallow embedding of
    [azure/identity/_credentials/shared_cache.py]: the public
    [SharedTokenCacheCredential] wrapper and the internal
    [_SharedTokenCacheCredential.get_token].

    [get_token] is a short method whose every step is a call on [self]: an
    attribute read, a method inherited from [SharedTokenCacheBase], or the
    client's token exchange.  It is embedded as a program over those calls
    (a free monad), so that the calls it makes, their order, their arguments
    and what it does with their answers are read off the program itself,
    for any implementation of the base class.  The base class lives in
    [_internal/shared_token_cache.py], which is not part of the sources at
    hand; a reference implementation of it, written from the specification,
    is given further down and interprets the calls on a concrete world. *)

From stdpp Require Import base strings list gmap pretty.
From Stdlib Require Import ZArith Lia Sorting.Sorted.

Local Open Scope Z_scope.
Local Open Scope string_scope.

(** ** Data model *)

(** [azure.core.credentials.AccessToken], a named tuple. *)
Record AccessToken := mkAccessToken { token : string; expires_on : Z }.

#[global] Instance AccessToken_eq_dec : EqDecision AccessToken.
Proof. solve_decision. Defined.

(** A cache item is a Python dict from attribute names to strings; the
    account items carry [username], [tenant_id] and [home_account_id]. *)
Abbreviation CacheItem := (gmap string string).

(** A cached token: an access token (value, expiry timestamp, scopes) or a
    refresh token (opaque value).  The account it belongs to is the key it
    is filed under in the cache. *)
Inductive CachedToken :=
| CachedAccessToken (secret : string) (expiry : Z) (target : list string)
| CachedRefreshToken (secret : string).

#[global] Instance CachedToken_eq_dec : EqDecision CachedToken.
Proof. solve_decision. Defined.

(** The in-memory cache: accounts with the tokens filed under each. *)
Abbreviation TokenCache := (list (CacheItem * list CachedToken)).

(** Keyword arguments passed through untouched ([**kwargs]). *)
Abbreviation Kwargs := (list (string * string)).

(** ** Exceptions and outcomes *)

Inductive Exn :=
| ValueError (msg : string)
| CredentialUnavailableError (message : string)
| ClientAuthenticationError (message : string)
| OtherException (cls message : string).

#[global] Instance Exn_eq_dec : EqDecision Exn.
Proof. solve_decision. Defined.

Inductive Outcome (A : Type) :=
| Returned (a : A)
| Raised (e : Exn).
Arguments Returned {A} a.
Arguments Raised {A} e.

Definition is_credential_unavailable {A} (o : Outcome A) : bool :=
  match o with
  | Raised (CredentialUnavailableError _) => true
  | _ => false
  end.

(** ** The calls [get_token] makes on [self] *)

(** The arguments of one [obtain_token_by_refresh_token] call. *)
Record ExchangeArgs := mkExchangeArgs {
  x_scopes : list string;
  x_refresh_token : string;
  x_claims : option string;
  x_tenant_id : option string;
  x_kwargs : Kwargs
}.

#[global] Instance ExchangeArgs_eq_dec : EqDecision ExchangeArgs.
Proof. solve_decision. Defined.

Inductive Call : Type -> Type :=
(* attribute reads *)
| self_client_initialized : Call bool
| self_cache : Call (option TokenCache)
| self_cae_cache : Call (option TokenCache)
| self_username : Call (option string)
| self_tenant_id : Call (option string)
(* methods of SharedTokenCacheBase *)
| _initialize_client : Call unit
| _initialize_cache (is_cae : bool) : Call (option TokenCache)
| _get_account (username tenant_id : option string) (is_cae : bool)
  : Call CacheItem
| _get_cached_access_token (scopes : list string) (account : CacheItem)
    (is_cae : bool) : Call (option AccessToken)
| _get_refresh_tokens (account : CacheItem) (is_cae : bool)
  : Call (list string)
(* self._client.obtain_token_by_refresh_token *)
| obtain_token_by_refresh_token (args : ExchangeArgs) : Call AccessToken.

(** Programs over these calls.  A call that raises ends the program with
    that exception: the source has no [try] anywhere. *)
Inductive Prog (A : Type) : Type :=
| Ret (a : A)
| Raise (e : Exn)
| Do {R : Type} (c : Call R) (k : R -> Prog A).
Arguments Ret {A} a.
Arguments Raise {A} e.
Arguments Do {A R} c k.

Fixpoint bind {A B} (p : Prog A) (f : A -> Prog B) : Prog B :=
  match p with
  | Ret a => f a
  | Raise e => Raise e
  | Do c k => Do c (fun r => bind (k r) f)
  end.

Definition call {R} (c : Call R) : Prog R := Do c Ret.

#[global] Instance Prog_ret : MRet Prog := @Ret.
#[global] Instance Prog_bind : MBind Prog := fun A B f p => bind p f.

(** [for x in xs: body] where the body may [return]: the body answers
    [Some a] when it returns [a] from the enclosing function and [None] when
    it falls through to the next iteration; [orelse] is the code after the
    loop. *)
Fixpoint for_in {X A} (xs : list X) (body : X -> Prog (option A))
    (orelse : Prog A) : Prog A :=
  match xs with
  | [] => orelse
  | x :: xs' =>
      r ← body x;
      match r with
      | Some a => Ret a
      | None => for_in xs' body orelse
      end
  end.

(** Python's [str] on an optional string, as [str.format] applies it. *)
Definition py_str (o : option string) : string :=
  match o with
  | Some s => s
  | None => "None"
  end.

(** Modelled from the spec: the constant [NO_TOKEN] is declared in
    [_internal/shared_token_cache.py], which is missing; the specification
    words the message as "no usable refresh token for account <identity>".
    [NO_TOKEN_format u] stands for [NO_TOKEN.format(u)]. *)
Definition NO_TOKEN_format (username : option string) : string :=
  "no usable refresh token for account " +:+ py_str username.

(** ** [_SharedTokenCacheCredential] *)

Module _SharedTokenCacheCredential.

Definition get_token (scopes : list string) (claims : option string)
    (tenant_id : option string) (enable_cae : bool) (kwargs : Kwargs)
  : Prog AccessToken :=
  if bool_decide (scopes = []) then
    Raise (ValueError "'get_token' requires at least one scope")
  else
    initialized ← call self_client_initialized;
    (if negb initialized then call _initialize_client else Ret tt);;
    let is_cae := enable_cae in
    token_cache ← (if is_cae then call self_cae_cache
                    else call self_cache);
    (* Try to load the cache if it is None. *)
    match token_cache with
    | None =>
        token_cache ← call (_initialize_cache is_cae);
        (* If the cache is still None, raise an error. *)
        match token_cache with
        | None =>
            Raise (CredentialUnavailableError
                     "Shared token cache unavailable")
        | Some _ => Ret tt
        end
    | Some _ => Ret tt
    end ;;
    username ← call self_username;
    tenant ← call self_tenant_id;
    account ← call (_get_account username tenant is_cae);
    token ← call (_get_cached_access_token scopes account is_cae);
    match token with
    | Some token => Ret token
    | None =>
        (* try each refresh token, returning the first access token
           acquired *)
        refresh_tokens ← call (_get_refresh_tokens account is_cae);
        for_in refresh_tokens
          (fun refresh_token =>
             token ← call (obtain_token_by_refresh_token
                              (mkExchangeArgs scopes refresh_token claims
                                 tenant_id kwargs));
             Ret (Some token))
          (Raise (CredentialUnavailableError
                    (NO_TOKEN_format (account !! "username"))))
    end.

End _SharedTokenCacheCredential.

(** ** [SharedTokenCacheCredential], the public wrapper *)

(** What the wrapper holds in [self._credential]: something with a
    [get_token] method. *)
Definition TokenCredential : Type :=
  list string -> option string -> option string -> bool -> Kwargs ->
  Prog AccessToken.

(** Modelled from the spec: the decorator [log_get_token] is declared in
    [_internal/decorators.py], which is missing; the specification lists the
    logging decorators as glue outside the core, so the decorated method is
    taken to behave as the undecorated one. *)
Definition log_get_token (fn : TokenCredential) : TokenCredential := fn.

Module SharedTokenCacheCredential.
Section Wrapper.

(** [SilentAuthenticationCredential] is declared in [silent.py], which is
    missing; the wrapper only stores it, so it is a parameter. *)
Variable SilentAuthenticationCredential : Kwargs -> TokenCredential.

(** ["authentication_record" in kwargs] *)
Definition has_key (key : string) (kwargs : Kwargs) : bool :=
  bool_decide (key ∈ kwargs.*1).

(** [__init__]: the value stored in [self._credential].  The state the
    inner constructor gives the object (the selectors, the empty caches) is
    part of the world its calls are run against. *)
Definition __init__ (username : option string) (kwargs : Kwargs)
  : TokenCredential :=
  if has_key "authentication_record" kwargs then
    SilentAuthenticationCredential kwargs
  else
    _SharedTokenCacheCredential.get_token.

Definition get_token (_credential : TokenCredential) : TokenCredential :=
  log_get_token
    (fun scopes claims tenant_id enable_cae kwargs =>
       _credential scopes claims tenant_id enable_cae kwargs).

End Wrapper.
End SharedTokenCacheCredential.

(** ** Running a program against an implementation of [self] *)

(** One call with the answer it got. *)
Inductive Event :=
| Ev {R : Type} (c : Call R) (o : Outcome R).

(** An implementation answers each call from the state of the world [W]
    (the object, the persistent store, the network) and may change it. *)
Definition Handler (W : Type) : Type :=
  forall R, Call R -> W -> Outcome R * W.

Record Run (W A : Type) := mkRun {
  outcome : Outcome A;
  final : W;
  log : list Event
}.
Arguments mkRun {W A} outcome final log.
Arguments outcome {W A} r.
Arguments final {W A} r.
Arguments log {W A} r.

(** Put an event in front of the log of what follows it. *)
Definition after {W A} (ev : Event) (rest : Run W A) : Run W A :=
  mkRun (outcome rest) (final rest) (ev :: log rest).

Fixpoint run {W A} (h : Handler W) (p : Prog A) (w : W) : Run W A :=
  match p with
  | Ret a => mkRun (Returned a) w []
  | Raise e => mkRun (Raised e) w []
  | Do c k =>
      match h _ c w with
      | (Returned r, w1) => after (Ev c (Returned r)) (run h (k r) w1)
      | (Raised e, w1) => mkRun (Raised e) w1 [Ev c (Raised e)]
      end
  end.

(** *** Reading a log *)

(** The token exchanges: arguments and answer of each
    [obtain_token_by_refresh_token] call. *)
Definition exchange_of (ev : Event)
  : option (ExchangeArgs * Outcome AccessToken) :=
  match ev with
  | Ev c o =>
      match c in Call R return Outcome R -> _ with
      | obtain_token_by_refresh_token args => fun o => Some (args, o)
      | _ => fun _ => None
      end o
  end.

Definition exchanges (l : list Event)
  : list (ExchangeArgs * Outcome AccessToken) := omap exchange_of l.

(** Which of the two caches a call reads, loads or searches: [Some true]
    for the CAE cache, [Some false] for the standard one, [None] for a call
    that touches neither. *)
Definition cache_of_call {R} (c : Call R) : option bool :=
  match c with
  | self_cache => Some false
  | self_cae_cache => Some true
  | _initialize_cache is_cae => Some is_cae
  | _get_account _ _ is_cae => Some is_cae
  | _get_cached_access_token _ _ is_cae => Some is_cae
  | _get_refresh_tokens _ is_cae => Some is_cae
  | _ => None
  end.

Definition cache_of_event (ev : Event) : option bool :=
  match ev with Ev c _ => cache_of_call c end.

Definition cache_accesses (l : list Event) : list bool :=
  omap cache_of_event l.

(** The answer of each lazy load, [_initialize_cache]. *)
Definition load_of (ev : Event)
  : option (bool * Outcome (option TokenCache)) :=
  match ev with
  | Ev c o =>
      match c in Call R return Outcome R -> _ with
      | _initialize_cache is_cae => fun o => Some (is_cae, o)
      | _ => fun _ => None
      end o
  end.

Definition loads (l : list Event) := omap load_of l.

(** The answer of each account resolution, [_get_account]. *)
Definition account_of (ev : Event) : option (Outcome CacheItem) :=
  match ev with
  | Ev c o =>
      match c in Call R return Outcome R -> _ with
      | _get_account _ _ _ => fun o => Some o
      | _ => fun _ => None
      end o
  end.

Definition accounts_resolved (l : list Event) := omap account_of l.

(** The token lookups: the account searched and what was found, for
    [_get_cached_access_token] and for [_get_refresh_tokens]. *)
Definition access_lookup_of (ev : Event)
  : option (CacheItem * Outcome (option AccessToken)) :=
  match ev with
  | Ev c o =>
      match c in Call R return Outcome R -> _ with
      | _get_cached_access_token _ account _ => fun o => Some (account, o)
      | _ => fun _ => None
      end o
  end.

Definition access_lookups (l : list Event) := omap access_lookup_of l.

Definition refresh_lookup_of (ev : Event)
  : option (CacheItem * Outcome (list string)) :=
  match ev with
  | Ev c o =>
      match c in Call R return Outcome R -> _ with
      | _get_refresh_tokens account _ => fun o => Some (account, o)
      | _ => fun _ => None
      end o
  end.

Definition refresh_lookups (l : list Event) := omap refresh_lookup_of l.

(** ** A reference [SharedTokenCacheBase]

    The inherited methods and the collaborators behind them, written from
    the specification's data model, algorithm steps and external
    interfaces. *)

(** What the persistent store of one cache partition holds. *)
Inductive StoreState :=
| StoreAbsent
| StoreInaccessible
| StoreHolds (c : TokenCache).

Record World := mkWorld {
  (* the credential object *)
  _client_initialized : bool;
  _cache : option TokenCache;
  _cae_cache : option TokenCache;
  _username : option string;
  _tenant_id : option string;
  (* the persistent store, one partition per cache *)
  store : StoreState;
  cae_store : StoreState;
  (* the clock and the safety margin applied to expiry times *)
  now : Z;
  clock_skew : Z;
  (* the token-issuing collaborator *)
  exchange : ExchangeArgs -> Outcome AccessToken
}.

Module SharedTokenCacheBase.

(** The in-memory cache selected by the flag, and the store behind it. *)
Definition slot (w : World) (is_cae : bool) : option TokenCache :=
  if is_cae then _cae_cache w else _cache w.

Definition store_of (w : World) (is_cae : bool) : StoreState :=
  if is_cae then cae_store w else store w.

Definition set_slot (is_cae : bool) (c : TokenCache) (w : World) : World :=
  if is_cae then
    mkWorld (_client_initialized w) (_cache w) (Some c) (_username w)
      (_tenant_id w) (store w) (cae_store w) (now w) (clock_skew w)
      (exchange w)
  else
    mkWorld (_client_initialized w) (Some c) (_cae_cache w) (_username w)
      (_tenant_id w) (store w) (cae_store w) (now w) (clock_skew w)
      (exchange w).

(** Modelled from the spec: the persistent cache store's
    [load(is_cae) -> TokenCache | absent] is missing; loading yields no
    cache when the store is absent, inaccessible or empty. *)
Definition load (s : StoreState) : option TokenCache :=
  match s with
  | StoreHolds (e :: c) => Some (e :: c)
  | _ => None
  end.

(** Modelled from the spec: [_initialize_client] is missing; it builds the
    client once, which the guard [self._client_initialized] records. *)
Definition _initialize_client (w : World) : Outcome unit * World :=
  (Returned tt,
   mkWorld true (_cache w) (_cae_cache w) (_username w) (_tenant_id w)
     (store w) (cae_store w) (now w) (clock_skew w) (exchange w)).

(** Modelled from the spec: [_initialize_cache] is missing; the lazy load
    of step 2: an already loaded cache is reused, otherwise the selected
    partition is loaded from the persistent store and kept. *)
Definition _initialize_cache (is_cae : bool) (w : World)
  : Outcome (option TokenCache) * World :=
  match slot w is_cae with
  | Some c => (Returned (Some c), w)
  | None =>
      match load (store_of w is_cae) with
      | Some c => (Returned (Some c), set_slot is_cae c w)
      | None => (Returned None, w)
      end
  end.

(** A configured selector must equal the account's attribute; an absent
    selector accepts every account. *)
Definition selects (selector : option string) (key : string)
    (account : CacheItem) : bool :=
  match selector with
  | None => true
  | Some v => bool_decide (account !! key = Some v)
  end.

Definition matching_accounts (username tenant_id : option string)
    (cache : TokenCache) : list CacheItem :=
  List.filter
    (fun a => selects username "username" a
              && selects tenant_id "tenant_id" a)
    cache.*1.

(** Modelled from the spec: [_get_account] is missing; step 3: the
    accounts of the selected cache that match the selectors; none or more
    than one is an error, exactly one is the account. *)
Definition _get_account (username tenant_id : option string)
    (is_cae : bool) (w : World) : Outcome CacheItem * World :=
  match matching_accounts username tenant_id
          (default [] (slot w is_cae)) with
  | [] => (Raised (CredentialUnavailableError "no account found"), w)
  | [account] => (Returned account, w)
  | _ :: _ :: _ =>
      (Raised (CredentialUnavailableError
                 "multiple accounts found; specify username/tenant"), w)
  end.

(** The tokens filed under an account. *)
Definition tokens_of (cache : TokenCache) (account : CacheItem)
  : list CachedToken :=
  match List.find (fun e => bool_decide (e.1 = account)) cache with
  | Some e => e.2
  | None => []
  end.

(** A cached access token serves a request when its scopes include the
    requested ones and it expires later than now plus the margin. *)
Definition serves (scopes : list string) (now skew : Z) (t : CachedToken)
  : bool :=
  match t with
  | CachedAccessToken _ expiry target =>
      bool_decide (scopes ⊆ target) && (now <? expiry - skew)%Z
  | CachedRefreshToken _ => false
  end.

Definition as_access_token (t : CachedToken) : option AccessToken :=
  match t with
  | CachedAccessToken secret expiry _ => Some (mkAccessToken secret expiry)
  | CachedRefreshToken _ => None
  end.

Definition as_refresh_token (t : CachedToken) : option string :=
  match t with
  | CachedRefreshToken secret => Some secret
  | CachedAccessToken _ _ _ => None
  end.

(** Modelled from the spec: [_get_cached_access_token] is missing; step 4:
    the first of the account's access tokens in the selected cache that
    serves the request.  The call site passes the scopes, the account and
    the flag. *)
Definition _get_cached_access_token (scopes : list string)
    (account : CacheItem) (is_cae : bool) (w : World)
  : Outcome (option AccessToken) * World :=
  (Returned
     (List.find (serves scopes (now w) (clock_skew w))
        (tokens_of (default [] (slot w is_cae)) account)
      ≫= as_access_token),
   w).

(** Modelled from the spec: [_get_refresh_tokens] is missing; step 5
    iterates the account's refresh tokens in the selected cache. *)
Definition _get_refresh_tokens (account : CacheItem) (is_cae : bool)
    (w : World) : Outcome (list string) * World :=
  (Returned (omap as_refresh_token
               (tokens_of (default [] (slot w is_cae)) account)),
   w).

(** Modelled from the spec: [AadClient.obtain_token_by_refresh_token] is
    missing; the token-issuing collaborator's
    [exchange(scopes, refresh_token, claims, tenant_hint)], which answers
    with a token or fails with an error of its own. *)
Definition obtain_token_by_refresh_token (args : ExchangeArgs) (w : World)
  : Outcome AccessToken * World :=
  (exchange w args, w).

End SharedTokenCacheBase.

(** The object as a whole: how it answers each call. *)
Definition self : Handler World :=
  fun R c w =>
    match c in Call R return Outcome R * World with
    | self_client_initialized => (Returned (_client_initialized w), w)
    | self_cache => (Returned (_cache w), w)
    | self_cae_cache => (Returned (_cae_cache w), w)
    | self_username => (Returned (_username w), w)
    | self_tenant_id => (Returned (_tenant_id w), w)
    | _initialize_client => SharedTokenCacheBase._initialize_client w
    | _initialize_cache is_cae =>
        SharedTokenCacheBase._initialize_cache is_cae w
    | _get_account u t is_cae =>
        SharedTokenCacheBase._get_account u t is_cae w
    | _get_cached_access_token s a is_cae =>
        SharedTokenCacheBase._get_cached_access_token s a is_cae w
    | _get_refresh_tokens a is_cae =>
        SharedTokenCacheBase._get_refresh_tokens a is_cae w
    | obtain_token_by_refresh_token args =>
        SharedTokenCacheBase.obtain_token_by_refresh_token args w
    end.

(** ** A scenario *)

(** The scenario of the specification: [alice@example.com] with an expired
    access token and refresh tokens, in the standard cache's store. *)
Definition alice : CacheItem :=
  {[ "username" := "alice@example.com";
     "tenant_id" := "contoso";
     "home_account_id" := "uid.utid" ]}.

Definition bob : CacheItem :=
  {[ "username" := "bob@example.com";
     "tenant_id" := "contoso";
     "home_account_id" := "uid2.utid" ]}.

Definition service : list string := ["https://service/.default"].

Definition alice_cache : TokenCache :=
  [(alice,
    [CachedAccessToken "stale" 1000 service;
     CachedRefreshToken "rt-1";
     CachedRefreshToken "rt-2"])].

(** An issuer that honours [rt-1] only and stamps the tenant it was asked
    for into the token. *)
Definition issuer (args : ExchangeArgs) : Outcome AccessToken :=
  if bool_decide (x_refresh_token args = "rt-1") then
    Returned (mkAccessToken ("fresh:" +:+ py_str (x_tenant_id args)) 9000)
  else Raised (ClientAuthenticationError "invalid_grant").

(** An issuer that rejects every exchange. *)
Definition revoked (args : ExchangeArgs) : Outcome AccessToken :=
  Raised (ClientAuthenticationError "invalid_grant").

Definition world_of (mem : option TokenCache) (st : StoreState)
    (username : option string) (ex : ExchangeArgs -> Outcome AccessToken)
  : World :=
  mkWorld false mem None username None st StoreAbsent 5000 300 ex.

Definition alice_world : World :=
  world_of None (StoreHolds alice_cache) None issuer.

Definition service_offline : list string :=
  ["https://service/.default"; "offline_access"].

(** Alice with a live access token next to the stale one, already in
    memory. *)
Definition live_cache : TokenCache :=
  [(alice,
    [CachedAccessToken "stale" 1000 service;
     CachedAccessToken "live" 9000 service_offline;
     CachedRefreshToken "rt-1"])].

Definition live_world : World :=
  world_of (Some live_cache) StoreAbsent (Some "alice@example.com") revoked.

(** Two accounts and no selector to tell them apart. *)
Definition shared_cache : TokenCache :=
  [(alice, [CachedRefreshToken "rt-1"]); (bob, [CachedRefreshToken "rt-b"])].

Definition shared_world : World :=
  world_of None (StoreHolds shared_cache) None issuer.

(** Alice with nothing but a stale access token. *)
Definition stale_cache : TokenCache :=
  [(alice, [CachedAccessToken "stale" 1000 service])].

Definition stale_world : World :=
  world_of None (StoreHolds stale_cache) None issuer.

(** No persistent cache at all. *)
Definition bare_world : World := world_of None StoreAbsent None issuer.

(** ** Notions the properties are stated with *)

(** The token collection a call would work with: the in-memory cache once
    loaded, and before that what a load from its store would give. *)
Definition contents (w : World) (is_cae : bool) : option TokenCache :=
  match SharedTokenCacheBase.slot w is_cae with
  | Some c => Some c
  | None => SharedTokenCacheBase.load (SharedTokenCacheBase.store_of w is_cae)
  end.


(** The world with the cache the flag does not select replaced, in memory
    and in its store. *)
Definition with_other_cache (is_cae : bool) (mem : option TokenCache)
    (st : StoreState) (w : World) : World :=
  if is_cae then
    mkWorld (_client_initialized w) mem (_cae_cache w) (_username w)
      (_tenant_id w) st (cae_store w) (now w) (clock_skew w) (exchange w)
  else
    mkWorld (_client_initialized w) (_cache w) mem (_username w)
      (_tenant_id w) (store w) st (now w) (clock_skew w) (exchange w).

(** A program confined to one cache: none of its calls, on any path, names
    the other one. *)
Inductive confined (is_cae : bool) {A : Type} : Prog A -> Prop :=
| confined_ret a : confined is_cae (Ret a)
| confined_raise e : confined is_cae (Raise e)
| confined_do {R} (c : Call R) k :
    cache_of_call c ≠ Some (negb is_cae) ->
    (forall r, confined is_cae (k r)) ->
    confined is_cae (Do c k).

(** ** More ways to read a log *)

(** The step of [get_token] a call belongs to, in the order of the source
    lines. *)
Definition stage (ev : Event) : nat :=
  match ev with
  | Ev c _ =>
      match c with
      | self_client_initialized => 0
      | _initialize_client => 1
      | self_cache => 2
      | self_cae_cache => 2
      | _initialize_cache _ => 3
      | self_username => 4
      | self_tenant_id => 5
      | _get_account _ _ _ => 6
      | _get_cached_access_token _ _ _ => 7
      | _get_refresh_tokens _ _ => 8
      | obtain_token_by_refresh_token _ => 9
      end
  end.

(** The exception a call raised, if it raised. *)
Definition raised_by (ev : Event) : option Exn :=
  match ev with
  | Ev _ (Raised e) => Some e
  | Ev _ (Returned _) => None
  end.

(** What [self._client_initialized] read as. *)
Definition flag_read_of (ev : Event) : option (Outcome bool) :=
  match ev with
  | Ev c o =>
      match c in Call R return Outcome R -> _ with
      | self_client_initialized => fun o => Some o
      | _ => fun _ => None
      end o
  end.

Definition flag_reads (l : list Event) := omap flag_read_of l.

(** The [_initialize_client] calls. *)
Definition client_init_of (ev : Event) : option (Outcome unit) :=
  match ev with
  | Ev c o =>
      match c in Call R return Outcome R -> _ with
      | _initialize_client => fun o => Some o
      | _ => fun _ => None
      end o
  end.

Definition client_inits (l : list Event) := omap client_init_of l.

(** What the cache attribute read as: [self._cae_cache] ([true]) or
    [self._cache] ([false]). *)
Definition cache_read_of (ev : Event)
  : option (bool * Outcome (option TokenCache)) :=
  match ev with
  | Ev c o =>
      match c in Call R return Outcome R -> _ with
      | self_cache => fun o => Some (false, o)
      | self_cae_cache => fun o => Some (true, o)
      | _ => fun _ => None
      end o
  end.

Definition cache_reads (l : list Event) := omap cache_read_of l.

(** What [self._username] and [self._tenant_id] read as. *)
Definition username_read_of (ev : Event) : option (Outcome (option string)) :=
  match ev with
  | Ev c o =>
      match c in Call R return Outcome R -> _ with
      | self_username => fun o => Some o
      | _ => fun _ => None
      end o
  end.

Definition username_reads (l : list Event) := omap username_read_of l.

Definition tenant_read_of (ev : Event) : option (Outcome (option string)) :=
  match ev with
  | Ev c o =>
      match c in Call R return Outcome R -> _ with
      | self_tenant_id => fun o => Some o
      | _ => fun _ => None
      end o
  end.

Definition tenant_reads (l : list Event) := omap tenant_read_of l.

(** The arguments [_get_account] was called with. *)
Definition account_request_of (ev : Event)
  : option (option string * option string * bool) :=
  match ev with
  | Ev c _ =>
      match c with
      | _get_account username tenant_id is_cae =>
          Some (username, tenant_id, is_cae)
      | _ => None
      end
  end.

Definition account_requests (l : list Event) := omap account_request_of l.

(** Every call but the exchange. *)
Definition not_exchange (ev : Event) : bool :=
  match exchange_of ev with
  | Some _ => false
  | None => true
  end.

(** ** Programs over any set of calls

    The rest of the code (the context-manager methods of the two credential
    classes, and the document-analysis sample) catches exceptions or must
    run code on the way out of a block, so its programs hand the answer of a
    call, result or exception, to what follows. *)

Inductive Answer (X R : Type) :=
| Yes (r : R)
| No (x : X).
Arguments Yes {X R} r.
Arguments No {X R} x.

Inductive Tree (E : Type -> Type) (X A : Type) : Type :=
| Done (a : A)
| Throw (x : X)
| Step {R : Type} (c : E R) (k : Answer X R -> Tree E X A).
Arguments Done {E X A} a.
Arguments Throw {E X A} x.
Arguments Step {E X A R} c k.

(** A call whose exception, if any, goes on propagating. *)
Definition perform {E X R} (c : E R) : Tree E X R :=
  Step c (fun o => match o with Yes r => Done r | No x => Throw x end).

Fixpoint then_ {E X A B} (p : Tree E X A) (f : A -> Tree E X B)
  : Tree E X B :=
  match p with
  | Done a => f a
  | Throw x => Throw x
  | Step c k => Step c (fun o => then_ (k o) f)
  end.

#[global] Instance Tree_ret {E X} : MRet (Tree E X) := fun A => Done.
#[global] Instance Tree_bind {E X} : MBind (Tree E X) :=
  fun A B f p => then_ p f.

(** [try: p / except: handler]: the handler sees every exception of [p]
    and decides by itself which ones it lets through. *)
Fixpoint try_except {E X A} (p : Tree E X A) (handler : X -> Tree E X A)
  : Tree E X A :=
  match p with
  | Done a => Done a
  | Throw x => handler x
  | Step c k => Step c (fun o => try_except (k o) handler)
  end.

(** Run [p] to its end and keep how it ended. *)
Fixpoint attempt {E X A} (p : Tree E X A) : Tree E X (Answer X A) :=
  match p with
  | Done a => Done (Yes a)
  | Throw x => Done (No x)
  | Step c k => Step c (fun o => attempt (k o))
  end.

(** [with acquire as f: body f], for a context manager whose [__exit__]
    returns [None]: [release f] runs on the way out, however the body
    ended; an exception of the body goes on once the release is over, and
    an exception of the release takes its place. *)
Definition with_ {E X F A} (acquire : Tree E X F) (release : F -> Tree E X unit)
    (body : F -> Tree E X A) : Tree E X A :=
  f ← acquire;
  ended ← attempt (body f);
  release f;;
  match ended with
  | Yes a => Done a
  | No x => Throw x
  end.

(** [for x in xs: body x] *)
Fixpoint for_each {E X T} (xs : list T) (body : T -> Tree E X unit)
  : Tree E X unit :=
  match xs with
  | [] => Done tt
  | x :: xs' => body x;; for_each xs' body
  end.

(** One call with its answer. *)
Inductive Occurrence (E : Type -> Type) (X : Type) :=
| Occ {R : Type} (c : E R) (o : Answer X R).
Arguments Occ {E X R} c o.

Definition Oracle (E : Type -> Type) (X W : Type) : Type :=
  forall R, E R -> W -> Answer X R * W.

Record Trace (E : Type -> Type) (X W A : Type) := mkTrace {
  result : Answer X A;
  world : W;
  events : list (Occurrence E X)
}.
Arguments mkTrace {E X W A} result world events.
Arguments result {E X W A} t.
Arguments world {E X W A} t.
Arguments events {E X W A} t.

Definition preceded {E X W A} (pre : list (Occurrence E X))
    (t : Trace E X W A) : Trace E X W A :=
  mkTrace (result t) (world t) (pre ++ events t).

Fixpoint exec {E X W A} (h : Oracle E X W) (p : Tree E X A) (w : W)
  : Trace E X W A :=
  match p with
  | Done a => mkTrace (Yes a) w []
  | Throw x => mkTrace (No x) w []
  | Step c k =>
      let '(o, w1) := h _ c w in
      preceded [Occ c o] (exec h (k o) w1)
  end.

(** A program all of whose calls, on any path, are of one sort. *)
Inductive only {E : Type -> Type} {X : Type} (P : forall R, E R -> Prop)
    {A : Type} : Tree E X A -> Prop :=
| only_done a : only P (Done a)
| only_throw x : only P (Throw x)
| only_step {R} (c : E R) k :
    P R c -> (forall o, only P (k o)) -> only P (Step c k).

(** ** The context-manager methods *)

(** The objects a [with] statement can be handed. *)
Inductive Self :=
| the_wrapper
| the_credential.

(** [self._client] and the two methods called on it.  The client is a
    handle; the arguments of [__exit__] are the exception details. *)
Inductive ClientCall : Type -> Type :=
| self_client : ClientCall (option nat)
| client_enter (client : nat) : ClientCall unit
| client_exit (client : nat) (args : list string) : ClientCall unit.

Abbreviation Managed := (Tree ClientCall Exn).

(** [self._client.method(...)]: the attribute is read again for the call,
    and a method looked up on [None] raises [AttributeError]. *)
Definition on_client (method : string) (call : nat -> ClientCall unit)
  : Managed unit :=
  client ← perform self_client;
  match client with
  | Some client => perform (call client)
  | None =>
      Throw (OtherException "AttributeError"
               ("'NoneType' object has no attribute '" +:+ method +:+ "'"))
  end.

Module _SharedTokenCacheCredentialContext.

Definition __enter__ : Managed Self :=
  client ← perform self_client;
  match client with
  | Some _ => on_client "__enter__" client_enter
  | None => Done tt
  end;;
  Done the_credential.

Definition __exit__ (args : list string) : Managed unit :=
  client ← perform self_client;
  match client with
  | Some _ => on_client "__exit__" (fun client => client_exit client args)
  | None => Done tt
  end.

End _SharedTokenCacheCredentialContext.

Module SharedTokenCacheCredentialContext.
Section Wrapper.

(** The two methods of whatever [self._credential] holds. *)
Variable credential_enter : Managed Self.
Variable credential_exit : list string -> Managed unit.

Definition __enter__ : Managed Self :=
  credential_enter;;
  Done the_wrapper.

Definition __exit__ (args : list string) : Managed unit :=
  credential_exit args.

(** Close the credential's transport session. *)
Definition close : Managed unit := __exit__ [].

End Wrapper.
End SharedTokenCacheCredentialContext.

(** The client calls of a trace. *)
Definition client_read_of (ev : Occurrence ClientCall Exn)
  : option (Answer Exn (option nat)) :=
  match ev with
  | Occ c o =>
      match c in ClientCall R return Answer Exn R -> _ with
      | self_client => fun o => Some o
      | _ => fun _ => None
      end o
  end.

Definition client_reads (l : list (Occurrence ClientCall Exn)) :=
  omap client_read_of l.

Definition client_enter_of (ev : Occurrence ClientCall Exn)
  : option (nat * Answer Exn unit) :=
  match ev with
  | Occ c o =>
      match c in ClientCall R return Answer Exn R -> _ with
      | client_enter client => fun o => Some (client, o)
      | _ => fun _ => None
      end o
  end.

Definition client_enters (l : list (Occurrence ClientCall Exn)) :=
  omap client_enter_of l.

Definition client_exit_of (ev : Occurrence ClientCall Exn)
  : option (nat * list string * Answer Exn unit) :=
  match ev with
  | Occ c o =>
      match c in ClientCall R return Answer Exn R -> _ with
      | client_exit client args => fun o => Some (client, args, o)
      | _ => fun _ => None
      end o
  end.

Definition client_exits (l : list (Occurrence ClientCall Exn)) :=
  omap client_exit_of l.


(** A credential whose [_client] attribute stays what it is and whose
    client enters and exits without error. *)
Definition steady : Oracle ClientCall Exn (option nat) :=
  fun R c w =>
    match c in ClientCall R return Answer Exn R * option nat with
    | self_client => (Yes w, w)
    | client_enter _ => (Yes tt, w)
    | client_exit _ _ => (Yes tt, w)
    end.

(** ** The key-value pair sample

    [sample_analyze_addon_key_value_pairs.py]: the function
    [analyze_key_value_pairs] and the script block that runs it. *)

Module Sample.

(** *** What the sample handles *)

(** The inner error of a response, with its code and with the text [str]
    gives for it. *)
Record ODataV4Format := mkODataV4Format {
  code : option string;
  odata_str : string
}.

(** An [HttpResponseError] (or an exception of a subclass): the inner
    error if any, the message, and the text [str] gives for the
    exception. *)
Record HttpError := mkHttpError {
  error : option ODataV4Format;
  message : string;
  error_str : string
}.

Inductive PyExn :=
| KeyError (key : string)
| HttpResponseError (err : HttpError)
| OtherError (cls msg : string).

(** A region of a page; [polygon] and [confidence] below are floating-point
    data, kept as the text [str] gives for them, which is all the sample
    does with them. *)
Record BoundingRegion := mkBoundingRegion {
  page_number : Z;
  polygon : string
}.

Record DocumentKeyValueElement := mkDocumentKeyValueElement {
  content : string;
  bounding_regions : list BoundingRegion
}.

Record DocumentKeyValuePair := mkDocumentKeyValuePair {
  key : DocumentKeyValueElement;
  value : option DocumentKeyValueElement;
  confidence : string
}.

Record AnalyzeResult := mkAnalyzeResult {
  key_value_pairs : list DocumentKeyValuePair
}.

Inductive DocumentAnalysisFeature :=
| KEY_VALUE_PAIRS.

(** The calls of the sample: the operating system, the SDK client and the
    console.  Credentials, clients, files and pollers are handles. *)
Inductive IO : Type -> Type :=
| os_path_abspath (path : string) : IO string
| os_path_join (a : string) (p : list string) : IO string
| os_environ (name : string) : IO string
| AzureKeyCredential (api_key : string) : IO nat
| DocumentIntelligenceClient (endpoint : string) (credential : nat) : IO nat
| open_ (file mode : string) : IO nat
| file_exit (f : nat) : IO unit
| begin_analyze_document (client : nat) (model_id : string)
    (analyze_request : nat) (features : list DocumentAnalysisFeature)
    (content_type : string) : IO nat
| poller_result (poller : nat) : IO AnalyzeResult
| print (line : string) : IO unit
| find_dotenv : IO string
| load_dotenv (dotenv_path : string) : IO bool.

Abbreviation Script := (Tree IO PyExn).

(** [enumerate(xs)] *)
Fixpoint enumerate_from {A} (start : nat) (xs : list A) : list (nat * A) :=
  match xs with
  | [] => []
  | x :: xs' => (start, x) :: enumerate_from (S start) xs'
  end.

Definition enumerate {A} (xs : list A) : list (nat * A) :=
  enumerate_from 0 xs.

(** [needle in hay], on strings *)
Fixpoint contains (needle hay : string) : bool :=
  String.prefix needle hay
  || match hay with
     | EmptyString => false
     | String _ hay' => contains needle hay'
     end.

(** *** [analyze_key_value_pairs] *)

Definition print_regions (regions : list BoundingRegion) : Script unit :=
  for_each regions
    (fun region =>
       perform
         (print ("        page number " +:+ pretty (page_number region)
                 +:+ ", region: " +:+ polygon region))).

Definition analyze_key_value_pairs (__file__ : string) : Script unit :=
  here ← perform (os_path_abspath __file__);
  joined ← perform
             (os_path_join here
                [".."; "sample_forms/add_ons/fonts_and_languages.png"]);
  path_to_sample_documents ← perform (os_path_abspath joined);
  endpoint ← perform (os_environ "DOCUMENTINTELLIGENCE_ENDPOINT");
  api_key ← perform (os_environ "DOCUMENTINTELLIGENCE_API_KEY");
  credential ← perform (AzureKeyCredential api_key);
  document_intelligence_client ←
    perform (DocumentIntelligenceClient endpoint credential);
  (* Specify which add-on capabilities to enable. *)
  poller ←
    with_ (perform (open_ path_to_sample_documents "rb"))
      (fun f => perform (file_exit f))
      (fun f =>
         perform
           (begin_analyze_document document_intelligence_client
              "prebuilt-layout" f [KEY_VALUE_PAIRS]
              "application/octet-stream"));
  result ← perform (poller_result poller);
  perform (print "----Key-value Pair detected in the document----");;
  perform
    (print ("Detected " +:+ pretty (length (key_value_pairs result))
            +:+ " Key-value Pairs:"));;
  for_each (enumerate (key_value_pairs result))
    (fun '(kvp_idx, kvp) =>
       perform (print ("- Key-value Pair #" +:+ pretty kvp_idx +:+ ": "));;
       perform (print ("    Key '" +:+ content (key kvp) +:+ "'"));;
       print_regions (bounding_regions (key kvp));;
       match value kvp with
       | Some v =>
           perform (print ("    Value: " +:+ content v));;
           print_regions (bounding_regions v)
       | None => Done tt
       end;;
       perform (print ("    Confidence: " +:+ confidence kvp)));;
  perform (print "----------------------------------------").

(** The two halves of [analyze_key_value_pairs]: getting the result
    (lines 46 to 71) and writing it out (lines 73 to 86). *)
Definition obtain_result (__file__ : string) : Script AnalyzeResult :=
  here ← perform (os_path_abspath __file__);
  joined ← perform
             (os_path_join here
                [".."; "sample_forms/add_ons/fonts_and_languages.png"]);
  path_to_sample_documents ← perform (os_path_abspath joined);
  endpoint ← perform (os_environ "DOCUMENTINTELLIGENCE_ENDPOINT");
  api_key ← perform (os_environ "DOCUMENTINTELLIGENCE_API_KEY");
  credential ← perform (AzureKeyCredential api_key);
  document_intelligence_client ←
    perform (DocumentIntelligenceClient endpoint credential);
  poller ←
    with_ (perform (open_ path_to_sample_documents "rb"))
      (fun f => perform (file_exit f))
      (fun f =>
         perform
           (begin_analyze_document document_intelligence_client
              "prebuilt-layout" f [KEY_VALUE_PAIRS]
              "application/octet-stream"));
  perform (poller_result poller).

Definition show_pair (entry : nat * DocumentKeyValuePair) : Script unit :=
  let '(kvp_idx, kvp) := entry in
  perform (print ("- Key-value Pair #" +:+ pretty kvp_idx +:+ ": "));;
  perform (print ("    Key '" +:+ content (key kvp) +:+ "'"));;
  print_regions (bounding_regions (key kvp));;
  match value kvp with
  | Some v =>
      perform (print ("    Value: " +:+ content v));;
      print_regions (bounding_regions v)
  | None => Done tt
  end;;
  perform (print ("    Confidence: " +:+ confidence kvp)).

Definition show_result (result : AnalyzeResult) : Script unit :=
  perform (print "----Key-value Pair detected in the document----");;
  perform
    (print ("Detected " +:+ pretty (length (key_value_pairs result))
            +:+ " Key-value Pairs:"));;
  for_each (enumerate (key_value_pairs result)) show_pair;;
  perform (print "----------------------------------------").

(** *** The script block *)

Section Main.

(** [str.casefold] *)
Variable casefold : string -> string.

(** The body of [except HttpResponseError as error], up to its [raise]. *)
Definition report_http_error (err : HttpError) : Script unit :=
  match error err with
  | Some inner =>
      (* Check by error code: *)
      (if bool_decide (code inner = Some "InvalidImage") then
         perform
           (print ("Received an invalid image error: " +:+ odata_str inner))
       else Done tt);;
      (if bool_decide (code inner = Some "InvalidRequest") then
         perform
           (print ("Received an invalid request error: "
                   +:+ odata_str inner))
       else Done tt)
      (* Raise the error again after printing it *)
  | None =>
      (* If the inner error is None and then it is possible to check the
         message to get more information: *)
      if contains (casefold "Invalid request") (casefold (message err)) then
        perform
          (print ("Uh-oh! Seems there was an invalid request: "
                  +:+ error_str err))
      else Done tt
  end.

Definition try_block (__file__ : string) : Script unit :=
  dotenv_path ← perform find_dotenv;
  perform (load_dotenv dotenv_path);;
  analyze_key_value_pairs __file__.

Definition main (__file__ : string) : Script unit :=
  try_except (try_block __file__)
    (fun exn =>
       match exn with
       | HttpResponseError err =>
           report_http_error err;;
           (* Raise the error again *)
           Throw exn
       | _ => Throw exn
       end).

End Main.

(** *** Reading a trace of the sample *)

Definition printed_of (ev : Occurrence IO PyExn) : option string :=
  match ev with
  | Occ c _ =>
      match c with
      | print line => Some line
      | _ => None
      end
  end.

(** The lines handed to [print], in order. *)
Definition printed (l : list (Occurrence IO PyExn)) : list string :=
  omap printed_of l.

Definition environ_of (ev : Occurrence IO PyExn)
  : option (string * Answer PyExn string) :=
  match ev with
  | Occ c o =>
      match c in IO R return Answer PyExn R -> _ with
      | os_environ name => fun o => Some (name, o)
      | _ => fun _ => None
      end o
  end.

(** The environment variables looked up, with what each lookup gave. *)
Definition environ_lookups (l : list (Occurrence IO PyExn)) :=
  omap environ_of l.

(** The steps around the document: building the credential and the
    client, opening the file, sending it, leaving the [with] block, and
    waiting for the result. *)
Inductive Phase :=
| Building
| Opening
| Sending
| Closing
| Waiting.

Definition phase_of (ev : Occurrence IO PyExn) : option Phase :=
  match ev with
  | Occ c _ =>
      match c with
      | AzureKeyCredential _ => Some Building
      | DocumentIntelligenceClient _ _ => Some Building
      | open_ _ _ => Some Opening
      | begin_analyze_document _ _ _ _ _ => Some Sending
      | file_exit _ => Some Closing
      | poller_result _ => Some Waiting
      | _ => None
      end
  end.

Definition phases (l : list (Occurrence IO PyExn)) : list Phase :=
  omap phase_of l.

Definition result_of (ev : Occurrence IO PyExn)
  : option (Answer PyExn AnalyzeResult) :=
  match ev with
  | Occ c o =>
      match c in IO R return Answer PyExn R -> _ with
      | poller_result _ => fun o => Some o
      | _ => fun _ => None
      end o
  end.

(** What waiting for the result gave. *)
Definition results (l : list (Occurrence IO PyExn)) := omap result_of l.

Definition open_of (ev : Occurrence IO PyExn)
  : option (Answer PyExn nat) :=
  match ev with
  | Occ c o =>
      match c in IO R return Answer PyExn R -> _ with
      | open_ _ _ => fun o => Some o
      | _ => fun _ => None
      end o
  end.

(** What opening the document gave. *)
Definition opened (l : list (Occurrence IO PyExn)) := omap open_of l.

Definition file_exit_of (ev : Occurrence IO PyExn) : option nat :=
  match ev with
  | Occ c _ =>
      match c with
      | file_exit f => Some f
      | _ => None
      end
  end.

(** The files closed on leaving a [with] block. *)
Definition closed (l : list (Occurrence IO PyExn)) := omap file_exit_of l.

(** An exception raised by [print]. *)
Definition print_failure (ev : Occurrence IO PyExn) : option PyExn :=
  match ev with
  | Occ c o =>
      match c in IO R return Answer PyExn R -> _ with
      | print _ => fun o => match o with No x => Some x | Yes _ => None end
      | _ => fun _ => None
      end o
  end.

(** *** What the sample writes *)

Definition region_line (region : BoundingRegion) : string :=
  "        page number " +:+ pretty (page_number region)
  +:+ ", region: " +:+ polygon region.

Definition value_lines (v : option DocumentKeyValueElement) : list string :=
  match v with
  | Some v =>
      ("    Value: " +:+ content v)
      :: (region_line <$> bounding_regions v)
  | None => []
  end.

Definition pair_lines (entry : nat * DocumentKeyValuePair) : list string :=
  (["- Key-value Pair #" +:+ pretty entry.1 +:+ ": ";
    "    Key '" +:+ content (key entry.2) +:+ "'"]
   ++ (region_line <$> bounding_regions (key entry.2))
   ++ value_lines (value entry.2)
   ++ ["    Confidence: " +:+ confidence entry.2])%list.

Definition transcript (result : AnalyzeResult) : list string :=
  (["----Key-value Pair detected in the document----";
    "Detected " +:+ pretty (length (key_value_pairs result))
    +:+ " Key-value Pairs:"]
   ++ flat_map pair_lines (enumerate (key_value_pairs result))
   ++ ["----------------------------------------"])%list.

(** The number of [print] calls one pair takes. *)
Definition pair_height (kvp : DocumentKeyValuePair) : nat :=
  (3 + length (bounding_regions (key kvp))
   + match value kvp with
     | Some v => 1 + length (bounding_regions v)
     | None => 0
     end)%nat.

(** The line the script block writes about an error, if any. *)
Definition diagnostic (casefold : string -> string) (err : HttpError)
  : list string :=
  match error err with
  | Some inner =>
      if bool_decide (code inner = Some "InvalidImage") then
        ["Received an invalid image error: " +:+ odata_str inner]
      else if bool_decide (code inner = Some "InvalidRequest") then
        ["Received an invalid request error: " +:+ odata_str inner]
      else []
  | None =>
      if contains (casefold "Invalid request") (casefold (message err)) then
        ["Uh-oh! Seems there was an invalid request: " +:+ error_str err]
      else []
  end.

(** A call to [print]. *)
Definition is_print (R : Type) (c : IO R) : Prop :=
  match c with
  | print _ => True
  | _ => False
  end.

(** A program that writes the lines [ls], one [print] each, and stops at
    the first [print] that fails. *)
Definition emits {W} (h : Oracle IO PyExn W) (p : Script unit)
    (ls : list string) : Prop :=
  forall w,
    printed (events (exec h p w)) `prefix_of` ls
    ∧ (result (exec h p w) = Yes tt -> printed (events (exec h p w)) = ls).

(** *** A machine to run the sample on *)

(** Paths are taken as they come, the environment is [env], every handle
    is granted, the service answers [outcome] and [print] does not fail. *)
Definition canned (env : string -> option string)
    (outcome : Answer PyExn AnalyzeResult) : Oracle IO PyExn unit :=
  fun R c w =>
    match c in IO R return Answer PyExn R * unit with
    | os_path_abspath path => (Yes path, w)
    | os_path_join a p => (Yes (fold_left (fun x y => x +:+ "/" +:+ y) p a), w)
    | os_environ name =>
        (match env name with
         | Some v => Yes v
         | None => No (KeyError name)
         end, w)
    | AzureKeyCredential _ => (Yes 1%nat, w)
    | DocumentIntelligenceClient _ _ => (Yes 2%nat, w)
    | open_ _ _ => (Yes 3%nat, w)
    | file_exit _ => (Yes tt, w)
    | begin_analyze_document _ _ _ _ _ => (Yes 4%nat, w)
    | poller_result _ => (outcome, w)
    | print _ => (Yes tt, w)
    | find_dotenv => (Yes ".env", w)
    | load_dotenv _ => (Yes true, w)
    end.

Definition settings (name : string) : option string :=
  if bool_decide (name = "DOCUMENTINTELLIGENCE_ENDPOINT") then
    Some "https://example.cognitiveservices.azure.com/"
  else if bool_decide (name = "DOCUMENTINTELLIGENCE_API_KEY") then
    Some "secret"
  else None.

Definition sample_result : AnalyzeResult :=
  mkAnalyzeResult
    [mkDocumentKeyValuePair
       (mkDocumentKeyValueElement "Name"
          [mkBoundingRegion 1 "[1.0, 2.0]"; mkBoundingRegion 2 "[3.0, 4.0]"])
       (Some (mkDocumentKeyValueElement "Ada" [mkBoundingRegion 1 "[5.0]"]))
       "0.9";
     mkDocumentKeyValuePair
       (mkDocumentKeyValueElement "Date" [])
       None
       "0.5"].

End Sample.

(** * Properties *)

(** ** For any implementation of the base class *)

(** Case analysis on the answer to the call a run is waiting for, and on the
    value a branch of the program tests. *)
Ltac answer h :=
  match goal with
  | |- context [h ?R ?c ?w] =>
      let E := fresh "E" in
      destruct (h R c w) as [[?|?] ?] eqn:E; simpl in *
  | |- context [negb ?x] => is_var x; destruct x; simpl in *
  | |- context [for_in ?x] => is_var x; destruct x; simpl in *
  | |- context [match ?x with _ => _ end] =>
      is_var x; destruct x; simpl in *
  | |- context [if ?x then _ else _] => is_var x; destruct x; simpl in *
  end.

Ltac all_paths h :=
  unfold _SharedTokenCacheCredential.get_token;
  case_bool_decide; simpl in *; [|repeat answer h].

Section AnyImplementation.

Context {W : Type} (h : Handler W).

Import _SharedTokenCacheCredential.

(** A cached access token, once found, is the result, and nothing is
    exchanged. *)
Lemma cached_token_is_returned scopes claims tenant_id enable_cae kwargs w
    account tok :
  let r := run h (get_token scopes claims tenant_id enable_cae kwargs) w in
  access_lookups (log r) = [(account, Returned (Some tok))] ->
  outcome r = Returned tok ∧ exchanges (log r) = [].
Proof.
  all_paths h; intros; simplify_eq; done.
Qed.


(** The claims, the tenant and the keyword arguments of a request go to
    the exchange and nowhere else: a call that makes no exchange runs the
    same whatever they are. *)
Lemma request_details_only_reach_exchange scopes claims tenant_id
    claims' tenant_id' enable_cae kwargs kwargs' w :
  exchanges
    (log (run h (get_token scopes claims tenant_id enable_cae kwargs) w))
  = [] ->
  run h (get_token scopes claims' tenant_id' enable_cae kwargs') w
  = run h (get_token scopes claims tenant_id enable_cae kwargs) w.
Proof.
  all_paths h; intros; simplify_eq; done.
Qed.

(** C1: with no scope, [get_token] raises [ValueError] at once: no call
    on [self] is made (no client initialisation, no cache read, load or
    search, no exchange) and the world is left as it was. *)
Theorem empty_scopes_rejected_first claims tenant_id enable_cae kwargs w :
  run h (get_token [] claims tenant_id enable_cae kwargs) w
  = mkRun (Raised (ValueError "'get_token' requires at least one scope"))
      w [].
Proof. reflexivity. Qed.

(** C3: when the refresh tokens of the account have been asked for, at
    most one exchange is made: none when there is no refresh token, and
    otherwise exactly one, with the first refresh token yielded and the
    arguments of the request; what that exchange answers, a token or an
    exception, is what [get_token] answers. *)
Theorem refresh_fallback_exchanges_once scopes claims tenant_id enable_cae
    kwargs w account refresh_tokens :
  let r := run h (get_token scopes claims tenant_id enable_cae kwargs) w in
  refresh_lookups (log r) = [(account, Returned refresh_tokens)] ->
  (length (exchanges (log r)) <= 1)%nat ∧
  match refresh_tokens with
  | [] => exchanges (log r) = []
  | refresh_token :: _ =>
      ∃ o, exchanges (log r)
           = [(mkExchangeArgs scopes refresh_token claims tenant_id kwargs,
               o)]
           ∧ outcome r = o
  end.
Proof.
  all_paths h; intros; simplify_eq; eauto.
Qed.

(** C4: when the lazy load of the selected cache yields no cache,
    [get_token] raises [CredentialUnavailableError]; the load was
    attempted because the selected cache read as not loaded, and no
    account resolution, token lookup or exchange follows it. *)
Theorem unloadable_cache_is_unavailable scopes claims tenant_id enable_cae
    kwargs w :
  let r := run h (get_token scopes claims tenant_id enable_cae kwargs) w in
  loads (log r) = [(enable_cae, Returned None)] ->
  outcome r
  = Raised (CredentialUnavailableError "Shared token cache unavailable")
  ∧ exchanges (log r) = []
  ∧ accounts_resolved (log r) = []
  ∧ Ev (if enable_cae then self_cae_cache else self_cache) (Returned None)
    ∈ log r.
Proof.
  all_paths h; intros; simplify_eq; repeat split; try done;
    rewrite !elem_of_cons; auto 10.
Qed.

(** Every cache that [get_token] reads, loads or searches is the one the
    flag selects. *)
Lemma only_selected_cache_consulted scopes claims tenant_id enable_cae
    kwargs w :
  let r := run h (get_token scopes claims tenant_id enable_cae kwargs) w in
  Forall (fun is_cae => is_cae = enable_cae) (cache_accesses (log r)).
Proof.
  all_paths h; repeat constructor.
Qed.

(** An account resolution that raises ends the call with that exception,
    before any token lookup. *)
Lemma unresolved_account_ends_call scopes claims tenant_id enable_cae
    kwargs w e :
  let r := run h (get_token scopes claims tenant_id enable_cae kwargs) w in
  accounts_resolved (log r) = [Raised e] ->
  outcome r = Raised e
  ∧ access_lookups (log r) = [] ∧ refresh_lookups (log r) = []
  ∧ exchanges (log r) = [].
Proof.
  all_paths h; intros; simplify_eq; done.
Qed.

(** A resolved account is the one the token lookup is made for. *)
Lemma resolved_account_is_looked_up scopes claims tenant_id enable_cae
    kwargs w account :
  let r := run h (get_token scopes claims tenant_id enable_cae kwargs) w in
  accounts_resolved (log r) = [Returned account] ->
  ∃ o, access_lookups (log r) = [(account, o)].
Proof.
  all_paths h; intros; simplify_eq; eauto.
Qed.

(** C7: when the account has no cached access token to return and no
    refresh token, [get_token] raises [CredentialUnavailableError] with
    the [NO_TOKEN] message formatted with the account's username, and
    makes no exchange. *)
Theorem no_refresh_token_is_unavailable scopes claims tenant_id enable_cae
    kwargs w account :
  let r := run h (get_token scopes claims tenant_id enable_cae kwargs) w in
  access_lookups (log r) = [(account, Returned None)] ->
  refresh_lookups (log r) = [(account, Returned [])] ->
  outcome r
  = Raised (CredentialUnavailableError
              (NO_TOKEN_format (account !! "username")))
  ∧ is_credential_unavailable (outcome r) = true
  ∧ exchanges (log r) = []
  ∧ ∀ u, account !! "username" = Some u ->
         outcome r
         = Raised (CredentialUnavailableError
                     ("no usable refresh token for account " +:+ u)).
Proof.
  all_paths h; intros; simplify_eq; repeat split; try done.
  all: intros u Hu; by rewrite Hu.
Qed.

(** C8: an exception raised by the exchange is the exception [get_token]
    raises, the very same value, and that exchange is the only one of the
    call. *)
Theorem exchange_failure_propagates scopes claims tenant_id enable_cae
    kwargs w args e :
  let r := run h (get_token scopes claims tenant_id enable_cae kwargs) w in
  (args, Raised e) ∈ exchanges (log r) ->
  outcome r = Raised e ∧ exchanges (log r) = [(args, Raised e)].
Proof.
  all_paths h; intros Hin;
    repeat (apply elem_of_cons in Hin as [Hin|Hin]);
    try (by apply elem_of_nil in Hin); simplify_eq; done.
Qed.

End AnyImplementation.

(** ** The reference implementation at work *)

Example alice_scenario :
  let r := run self
             (_SharedTokenCacheCredential.get_token service None None false
                [])
             alice_world in
  outcome r = Returned (mkAccessToken "fresh:None" 9000)
  ∧ exchanges (log r)
    = [(mkExchangeArgs service "rt-1" None None [],
        Returned (mkAccessToken "fresh:None" 9000))]
  ∧ _cache (final r) = Some alice_cache.
Proof. repeat split; reflexivity. Qed.

(** C10: the public [get_token] of a credential built without an
    authentication record hands [tenant_id] to the internal credential,
    which hands it unchanged to every [obtain_token_by_refresh_token] call;
    and the token obtained can depend on it: with an issuer that looks at
    the tenant, two requests differing only in [tenant_id] are answered with
    different tokens. *)
Theorem tenant_id_reaches_exchange {W} (h : Handler W) silent username
    init_kwargs scopes claims tenant_id enable_cae kwargs w :
  let credential :=
    SharedTokenCacheCredential.__init__ silent username init_kwargs in
  let r := run h
             (SharedTokenCacheCredential.get_token credential scopes claims
                tenant_id enable_cae kwargs) w in
  SharedTokenCacheCredential.has_key "authentication_record" init_kwargs
  = false ->
  Forall (fun x => x_tenant_id x.1 = tenant_id) (exchanges (log r))
  ∧ outcome
      (run self
         (SharedTokenCacheCredential.get_token credential service None
            (Some "contoso") false []) alice_world)
    ≠ outcome
        (run self
           (SharedTokenCacheCredential.get_token credential service None
              (Some "fabrikam") false []) alice_world).
Proof.
  intros credential r Hkey. subst r credential.
  unfold SharedTokenCacheCredential.__init__,
    SharedTokenCacheCredential.get_token, log_get_token.
  rewrite Hkey. split.
  2:{ intros Heq.
      assert (Htok : "fresh:contoso" = "fresh:fabrikam")
        by exact (f_equal
                    (fun o => match o with
                              | Returned t => token t
                              | Raised _ => "raised"
                              end) Heq).
      discriminate Htok. }
  all_paths h; repeat constructor.
Qed.

Lemma tenant_id_reaches_exchange_witness :
  let credential :=
    SharedTokenCacheCredential.__init__
      (fun _ _ _ _ _ _ => Raise (OtherException "RuntimeError" "unused")) None
      [("authority", "login.microsoftonline.com")] in
  let r := run self
             (SharedTokenCacheCredential.get_token credential service None
                (Some "fabrikam") false []) alice_world in
  SharedTokenCacheCredential.has_key "authentication_record"
    [("authority", "login.microsoftonline.com")] = false
  ∧ exchanges (log r)
    = [(mkExchangeArgs service "rt-1" None (Some "fabrikam") [],
        Returned (mkAccessToken "fresh:fabrikam" 9000))]
  ∧ Forall (fun x => x_tenant_id x.1 = Some "fabrikam") (exchanges (log r)).
Proof.
  split; [reflexivity|]. split; [reflexivity|].
  apply (tenant_id_reaches_exchange self
           (fun _ _ _ _ _ _ => Raise (OtherException "RuntimeError" "unused")) None
           [("authority", "login.microsoftonline.com")] service None
           (Some "fabrikam") false [] alice_world).
  reflexivity.
Defined.

#[local] Arguments SharedTokenCacheBase.matching_accounts : simpl never.
#[local] Arguments SharedTokenCacheBase.tokens_of : simpl never.
#[local] Arguments SharedTokenCacheBase.serves : simpl never.
#[local] Arguments SharedTokenCacheBase.load : simpl never.
#[local] Arguments NO_TOKEN_format : simpl never.
#[local] Arguments List.find : simpl never.
#[local] Arguments omap : simpl never.

(** Case analysis along a run of the reference implementation. *)
Ltac on_reference :=
  repeat
    (simpl;
     unfold SharedTokenCacheBase._initialize_cache,
       SharedTokenCacheBase._get_account,
       SharedTokenCacheBase._get_cached_access_token,
       SharedTokenCacheBase._get_refresh_tokens,
       SharedTokenCacheBase.obtain_token_by_refresh_token;
     simpl;
     match goal with
     | H : ?x = _ |- context [match ?x with _ => _ end] => rewrite H
     | H : match ?x with _ => _ end = _ |- _ => destruct x eqn:?
     | |- context [match ?x with _ => _ end] => destruct x eqn:?
     | |- context [for_in ?x _ _] => destruct x eqn:?
     end; simplify_eq/=).

Section Reference.

Import _SharedTokenCacheCredential.
Abbreviation matching_accounts := SharedTokenCacheBase.matching_accounts.

Lemma find_serving (P : CachedToken -> bool) (l : list CachedToken) t :
  t ∈ l -> P t = true ->
  ∃ t', List.find P l = Some t' ∧ t' ∈ l ∧ P t' = true.
Proof.
  intros Hin HP. destruct (List.find P l) as [t'|] eqn:Hfind.
  - apply List.find_some in Hfind as [Hin' HP'].
    exists t'. by rewrite list_elem_of_In.
  - apply list_elem_of_In in Hin.
    pose proof (List.find_none _ _ Hfind _ Hin). congruence.
Qed.

(** How a call fares once its cache is there: the account resolution is
    made on the contents of the selected cache, with the configured
    selectors. *)
Lemma resolution_on_contents w scopes claims tenant_id enable_cae kwargs
    cache :
  let r := run self
             (get_token scopes claims tenant_id enable_cae kwargs) w in
  scopes ≠ [] ->
  contents w enable_cae = Some cache ->
  accounts_resolved (log r)
  = [match matching_accounts (_username w) (_tenant_id w) cache with
     | [] => Raised (CredentialUnavailableError "no account found")
     | [account] => Returned account
     | _ :: _ :: _ =>
         Raised (CredentialUnavailableError
                   "multiple accounts found; specify username/tenant")
     end].
Proof.
  intros r Hs Hc. subst r. unfold get_token. case_bool_decide; [done|].
  destruct w as [ci c cc u t st cst nw sk ex].
  unfold contents in Hc.
  destruct enable_cae, ci; simpl in *.
  all: on_reference; done.
Qed.

(** And the access-token lookup is made for the one account that
    matches, among the tokens filed under it in those contents. *)
Lemma lookup_on_contents w scopes claims tenant_id enable_cae kwargs cache
    account :
  let r := run self
             (get_token scopes claims tenant_id enable_cae kwargs) w in
  scopes ≠ [] ->
  contents w enable_cae = Some cache ->
  matching_accounts (_username w) (_tenant_id w) cache = [account] ->
  access_lookups (log r)
  = [(account,
      Returned
        (List.find
           (SharedTokenCacheBase.serves scopes (now w) (clock_skew w))
           (SharedTokenCacheBase.tokens_of cache account)
         ≫= SharedTokenCacheBase.as_access_token))].
Proof.
  intros r Hs Hc Hm. subst r. unfold get_token. case_bool_decide; [done|].
  destruct w as [ci c cc u t st cst nw sk ex].
  unfold contents in Hc.
  destruct enable_cae, ci; simpl in *.
  all: on_reference; done.
Qed.

(** Failing that lookup, the refresh tokens asked for are those filed under
    the same account in the same contents. *)
Lemma refresh_lookup_on_contents w scopes claims tenant_id enable_cae kwargs
    cache account :
  let r := run self
             (get_token scopes claims tenant_id enable_cae kwargs) w in
  scopes ≠ [] ->
  contents w enable_cae = Some cache ->
  matching_accounts (_username w) (_tenant_id w) cache = [account] ->
  List.find (SharedTokenCacheBase.serves scopes (now w) (clock_skew w))
    (SharedTokenCacheBase.tokens_of cache account)
  ≫= SharedTokenCacheBase.as_access_token = None ->
  refresh_lookups (log r)
  = [(account,
      Returned
        (omap SharedTokenCacheBase.as_refresh_token
           (SharedTokenCacheBase.tokens_of cache account)))].
Proof.
  intros r Hs Hc Hm Hf. subst r. unfold get_token. case_bool_decide; [done|].
  destruct w as [ci c cc u t st cst nw sk ex].
  unfold contents in Hc.
  destruct enable_cae, ci; simpl in *.
  all: on_reference; done.
Qed.

(** A cache that is not in memory and that its store cannot give: the load
    is attempted, once, and yields nothing. *)
Lemma load_attempted_in_vain w scopes claims tenant_id enable_cae kwargs :
  let r := run self
             (get_token scopes claims tenant_id enable_cae kwargs) w in
  scopes ≠ [] ->
  contents w enable_cae = None ->
  loads (log r) = [(enable_cae, Returned None)].
Proof.
  intros r Hs Hc. subst r. unfold get_token. case_bool_decide; [done|].
  destruct w as [ci c cc u t st cst nw sk ex].
  unfold contents in Hc.
  destruct enable_cae, ci; simpl in *.
  all: on_reference; done.
Qed.

(** C2: when the one account that matches the selectors has, in the
    selected cache, an access token whose scopes include the requested
    ones and whose expiry lies beyond now plus the safety margin,
    [get_token] returns such a cached token (secret and expiry of an
    entry filed under the account that meets both conditions) and makes
    no exchange.  Cached access tokens carry no claims, and the lookup is
    not given the request's: the proviso on claims asks nothing. *)
Theorem valid_cached_token_is_returned w scopes claims tenant_id
    enable_cae kwargs cache account secret expiry target :
  let r := run self
             (get_token scopes claims tenant_id enable_cae kwargs) w in
  scopes ≠ [] ->
  contents w enable_cae = Some cache ->
  matching_accounts (_username w) (_tenant_id w) cache = [account] ->
  CachedAccessToken secret expiry target
  ∈ SharedTokenCacheBase.tokens_of cache account ->
  scopes ⊆ target ->
  now w < expiry - clock_skew w ->
  ∃ secret' expiry' target',
    CachedAccessToken secret' expiry' target'
    ∈ SharedTokenCacheBase.tokens_of cache account
    ∧ scopes ⊆ target'
    ∧ now w < expiry' - clock_skew w
    ∧ outcome r = Returned (mkAccessToken secret' expiry')
    ∧ exchanges (log r) = [].
Proof.
  intros r Hs Hc Hm Hin Hsub Hexp.
  destruct (find_serving
              (SharedTokenCacheBase.serves scopes (now w) (clock_skew w))
              _ _ Hin) as (t' & Hfind & Hin' & Hserves).
  { unfold SharedTokenCacheBase.serves.
    rewrite bool_decide_eq_true_2 by done. simpl. lia. }
  destruct t' as [secret' expiry' target'|]; [|done].
  unfold SharedTokenCacheBase.serves in Hserves.
  apply andb_true_iff in Hserves as [Hsub' Hexp'].
  apply bool_decide_eq_true_1 in Hsub'. apply Z.ltb_lt in Hexp'.
  pose proof (lookup_on_contents w scopes claims tenant_id enable_cae
                kwargs cache account Hs Hc Hm) as Hlook.
  rewrite Hfind in Hlook.
  apply (cached_token_is_returned self) in Hlook as [Ho Hx].
  by exists secret', expiry', target'.
Qed.

(** C6: on the contents of the selected cache, when exactly one account
    matches the configured selectors the call goes on to the token lookup
    for that account; when none matches, or more than one, it raises
    [CredentialUnavailableError] and makes no token lookup and no
    exchange. *)
Theorem account_must_be_unique w scopes claims tenant_id enable_cae kwargs
    cache :
  let r := run self
             (get_token scopes claims tenant_id enable_cae kwargs) w in
  scopes ≠ [] ->
  contents w enable_cae = Some cache ->
  match matching_accounts (_username w) (_tenant_id w) cache with
  | [account] => ∃ o, access_lookups (log r) = [(account, o)]
  | _ =>
      is_credential_unavailable (outcome r) = true
      ∧ access_lookups (log r) = []
      ∧ refresh_lookups (log r) = []
      ∧ exchanges (log r) = []
  end.
Proof.
  intros r Hs Hc.
  pose proof (resolution_on_contents w scopes claims tenant_id enable_cae
                kwargs cache Hs Hc) as Hres.
  destruct (matching_accounts _ _ cache) as [|account [|other rest]].
  - apply (unresolved_account_ends_call self) in Hres
      as (Ho & ? & ? & ?). subst r. by rewrite Ho.
  - by apply (resolved_account_is_looked_up self) in Hres.
  - apply (unresolved_account_ends_call self) in Hres
      as (Ho & ? & ? & ?). subst r. by rewrite Ho.
Qed.





(** *** The two caches are independent *)

Lemma confined_bind is_cae {A B} (p : Prog A) (f : A -> Prog B) :
  confined is_cae p -> (∀ a, confined is_cae (f a)) ->
  confined is_cae (bind p f).
Proof.
  intros Hp Hf. induction Hp; simpl; [done|constructor|].
  constructor; auto.
Qed.

Lemma get_token_confined scopes claims tenant_id enable_cae kwargs :
  confined enable_cae
    (get_token scopes claims tenant_id enable_cae kwargs).
Proof.
  unfold get_token. case_bool_decide; [constructor|].
  repeat first
    [ apply confined_bind; [|intros ?]
    | apply confined_do;
        [first [done | by destruct enable_cae]|intros ?]
    | apply confined_ret
    | apply confined_raise
    | match goal with
      | |- confined _ (call _) => unfold call
      | |- confined _ (_ ≫= _) => unfold mbind, Prog_bind
      | |- confined _ (for_in ?l _ _) => destruct l; simpl
      | |- confined _ (match ?x with _ => _ end) => destruct x
      end ].
Qed.

(** The reference implementation answers a call confined to one cache
    without looking at the other. *)
Lemma self_confined is_cae mem st {R} (c : Call R) w :
  cache_of_call c ≠ Some (negb is_cae) ->
  self R c (with_other_cache is_cae mem st w)
  = ((self R c w).1, with_other_cache is_cae mem st (self R c w).2).
Proof.
  destruct w as [ci c0 cc u t st0 cst nw sk ex].
  destruct c as [| | | | | |b|? ? b|? ? b|? b|]; try destruct b;
    destruct is_cae; simpl; intros Hc; try done.
  all: unfold SharedTokenCacheBase._initialize_cache,
         SharedTokenCacheBase._get_account; simpl;
       repeat match goal with
         | |- context [match ?x with _ => _ end] => destruct x eqn:?; simpl
         end; done.
Qed.

Lemma run_confined is_cae mem st {A} (p : Prog A) w :
  confined is_cae p ->
  run self p (with_other_cache is_cae mem st w)
  = mkRun (outcome (run self p w))
      (with_other_cache is_cae mem st (final (run self p w)))
      (log (run self p w)).
Proof.
  intros Hp. revert w. induction Hp as [a|e|R c k Hc Hk IH]; intros w.
  - done.
  - done.
  - cbn [run]. rewrite self_confined by done.
    destruct (self R c w) as [[r|e] w1]; cbn [fst snd]; [|done].
    by rewrite IH.
Qed.

(** Past the scope check, the cache the flag selects is consulted. *)
Lemma selected_cache_is_consulted w scopes claims tenant_id enable_cae
    kwargs :
  scopes ≠ [] ->
  ∃ rest,
    cache_accesses
      (log (run self
              (get_token scopes claims tenant_id enable_cae kwargs) w))
    = enable_cae :: rest.
Proof.
  intros Hs. unfold get_token. case_bool_decide; [done|].
  destruct w as [ci c cc u t st cst nw sk ex].
  destruct enable_cae, ci; simpl in *.
  all: on_reference; eauto.
Qed.

(** C5: the flag alone selects the cache.  A call with no scope fails
    before it consults any cache; a call that gets past the scope check
    consults the selected cache; on every call, every cache read, loaded or
    searched is the CAE cache when [enable_cae] is set and the standard
    cache otherwise; and nothing of the other cache shows: replacing it, in
    memory and in its store, by anything at all changes neither the outcome
    of the call nor any call made or answer received, and the call leaves
    the replacement in place. *)
Theorem one_cache_per_call w scopes claims tenant_id enable_cae kwargs
    mem st :
  let p := get_token scopes claims tenant_id enable_cae kwargs in
  let r := run self p w in
  let r' := run self p (with_other_cache enable_cae mem st w) in
  match scopes with
  | [] => cache_accesses (log r) = []
  | _ :: _ => enable_cae ∈ cache_accesses (log r)
  end
  ∧ Forall (fun is_cae => is_cae = enable_cae) (cache_accesses (log r))
  ∧ outcome r' = outcome r
  ∧ log r' = log r
  ∧ final r' = with_other_cache enable_cae mem st (final r).
Proof.
  intros p r r'. split; [|split].
  - destruct scopes as [|scope scopes]; [done|].
    destruct (selected_cache_is_consulted w (scope :: scopes) claims
                tenant_id enable_cae kwargs) as [rest Hrest]; [done|].
    subst r p. rewrite Hrest. apply list_elem_of_here.
  - apply only_selected_cache_consulted.
  - subst r'. rewrite run_confined by apply get_token_confined. done.
Qed.

End Reference.

(** ** The properties on the scenarios *)

Import _SharedTokenCacheCredential.

Example store_without_cache :
  SharedTokenCacheBase.load StoreAbsent = None
  ∧ SharedTokenCacheBase.load StoreInaccessible = None
  ∧ SharedTokenCacheBase.load (StoreHolds []) = None
  ∧ SharedTokenCacheBase.load (StoreHolds alice_cache) = Some alice_cache.
Proof. done. Qed.

(** A selector that no cached account meets. *)
Example no_such_account :
  outcome
    (run self (get_token service None None false [])
       (world_of (Some shared_cache) StoreAbsent (Some "carol@example.com")
          issuer))
  = Raised (CredentialUnavailableError "no account found").
Proof. reflexivity. Qed.

(** A selector that tells the two accounts apart. *)
Example selector_narrows_to_one :
  outcome
    (run self (get_token service None None false [])
       (world_of (Some shared_cache) StoreAbsent (Some "bob@example.com")
          revoked))
  = Raised (ClientAuthenticationError "invalid_grant")
  ∧ exchanges
      (log
         (run self (get_token service None None false [])
            (world_of (Some shared_cache) StoreAbsent
               (Some "bob@example.com") revoked)))
    = [(mkExchangeArgs service "rt-b" None None [],
        Raised (ClientAuthenticationError "invalid_grant"))].
Proof. split; reflexivity. Qed.

(** Tokens of the standard cache are out of reach of a CAE request, and
    within reach of a standard one. *)
Example partitions_are_separate :
  outcome (run self (get_token service_offline None None true []) live_world)
  = Raised (CredentialUnavailableError "Shared token cache unavailable")
  ∧ outcome
      (run self (get_token service_offline None None false []) live_world)
    = Returned (mkAccessToken "live" 9000).
Proof. split; reflexivity. Qed.

Lemma valid_cached_token_is_returned_witness :
  let r := run self
             (get_token service (Some "challenge") None false [])
             live_world in
  (service ≠ []
   ∧ contents live_world false = Some live_cache
   ∧ SharedTokenCacheBase.matching_accounts (_username live_world)
       (_tenant_id live_world) live_cache = [alice]
   ∧ CachedAccessToken "live" 9000 service_offline
     ∈ SharedTokenCacheBase.tokens_of live_cache alice
   ∧ service ⊆ service_offline
   ∧ now live_world < 9000 - clock_skew live_world)
  ∧ ∃ secret' expiry' target',
      CachedAccessToken secret' expiry' target'
      ∈ SharedTokenCacheBase.tokens_of live_cache alice
      ∧ service ⊆ target'
      ∧ now live_world < expiry' - clock_skew live_world
      ∧ outcome r = Returned (mkAccessToken secret' expiry')
      ∧ exchanges (log r) = [].
Proof.
  assert (H1 : service ≠ []) by done.
  assert (H2 : contents live_world false = Some live_cache)
    by reflexivity.
  assert (H3 : SharedTokenCacheBase.matching_accounts
                 (_username live_world) (_tenant_id live_world) live_cache
               = [alice]) by reflexivity.
  assert (H4 : CachedAccessToken "live" 9000 service_offline
               ∈ SharedTokenCacheBase.tokens_of live_cache alice)
    by (apply list_elem_of_further, list_elem_of_here).
  assert (H5 : service ⊆ service_offline)
    by (intros x Hx; apply list_elem_of_singleton in Hx as ->;
        apply list_elem_of_here).
  assert (H6 : now live_world < 9000 - clock_skew live_world)
    by (simpl; lia).
  split; [done|].
  exact (valid_cached_token_is_returned live_world service
           (Some "challenge") None false [] live_cache alice "live" 9000
           service_offline H1 H2 H3 H4 H5 H6).
Defined.

Lemma refresh_fallback_exchanges_once_witness :
  let r := run self (get_token service None None false []) alice_world in
  refresh_lookups (log r) = [(alice, Returned ["rt-1"; "rt-2"])]
  ∧ (length (exchanges (log r)) <= 1)%nat
  ∧ ∃ o, exchanges (log r)
         = [(mkExchangeArgs service "rt-1" None None [], o)]
         ∧ outcome r = o.
Proof.
  assert (H : refresh_lookups
                (log (run self (get_token service None None false [])
                        alice_world))
              = [(alice, Returned ["rt-1"; "rt-2"])])
    by reflexivity.
  split; [exact H|].
  exact (refresh_fallback_exchanges_once self service None None false []
           alice_world alice ["rt-1"; "rt-2"] H).
Defined.

Lemma unloadable_cache_is_unavailable_witness :
  let r := run self (get_token service None None true []) bare_world in
  loads (log r) = [(true, Returned None)]
  ∧ outcome r
    = Raised (CredentialUnavailableError "Shared token cache unavailable")
  ∧ exchanges (log r) = [].
Proof.
  assert (H : loads
                (log (run self (get_token service None None true [])
                        bare_world))
              = [(true, Returned None)]) by reflexivity.
  split; [exact H|].
  destruct (unloadable_cache_is_unavailable self service None None true []
              bare_world H) as (Ho & Hx & _).
  exact (conj Ho Hx).
Defined.

Lemma account_must_be_unique_witness :
  let r := run self (get_token service None None false []) shared_world in
  (service ≠ [] ∧ contents shared_world false = Some shared_cache)
  ∧ SharedTokenCacheBase.matching_accounts None None shared_cache
    = [alice; bob]
  ∧ is_credential_unavailable (outcome r) = true
  ∧ access_lookups (log r) = []
  ∧ refresh_lookups (log r) = []
  ∧ exchanges (log r) = [].
Proof.
  assert (H1 : service ≠ []) by done.
  assert (H2 : contents shared_world false = Some shared_cache)
    by reflexivity.
  split; [done|]. split; [reflexivity|].
  exact (account_must_be_unique shared_world service None None false []
           shared_cache H1 H2).
Defined.

Lemma no_refresh_token_is_unavailable_witness :
  let r := run self (get_token service None None false []) stale_world in
  (access_lookups (log r) = [(alice, Returned None)]
   ∧ refresh_lookups (log r) = [(alice, Returned [])])
  ∧ outcome r
    = Raised (CredentialUnavailableError
                "no usable refresh token for account alice@example.com").
Proof.
  assert (H1 : access_lookups
                 (log (run self (get_token service None None false [])
                         stale_world))
               = [(alice, Returned None)]) by reflexivity.
  assert (H2 : refresh_lookups
                 (log (run self (get_token service None None false [])
                         stale_world))
               = [(alice, Returned [])]) by reflexivity.
  split; [exact (conj H1 H2)|].
  destruct (no_refresh_token_is_unavailable self service None None false []
              stale_world alice H1 H2) as (_ & _ & _ & Hmsg).
  exact (Hmsg "alice@example.com" eq_refl).
Defined.

Lemma exchange_failure_propagates_witness :
  let w := world_of None (StoreHolds alice_cache) None revoked in
  let r := run self (get_token service None None false []) w in
  let args := mkExchangeArgs service "rt-1" None None [] in
  (args, Raised (ClientAuthenticationError "invalid_grant"))
  ∈ exchanges (log r)
  ∧ outcome r = Raised (ClientAuthenticationError "invalid_grant")
  ∧ exchanges (log r)
    = [(args, Raised (ClientAuthenticationError "invalid_grant"))].
Proof.
  assert (H : (mkExchangeArgs service "rt-1" None None [],
               Raised (ClientAuthenticationError "invalid_grant"))
              ∈ exchanges
                  (log (run self (get_token service None None false [])
                          (world_of None (StoreHolds alice_cache) None
                             revoked))))
    by apply list_elem_of_here.
  split; [exact H|].
  exact (exchange_failure_propagates self service None None false []
           (world_of None (StoreHolds alice_cache) None revoked) _ _ H).
Defined.

(** A call with no scope consults neither cache. *)
Lemma no_scope_consults_no_cache :
  let r := run self (get_token [] None None true []) alice_world in
  outcome r = Raised (ValueError "'get_token' requires at least one scope")
  ∧ cache_accesses (log r) = []
  ∧ ¬ ∃ is_cae, is_cae ∈ cache_accesses (log r).
Proof.
  repeat split. intros [is_cae Hin]. by apply elem_of_nil in Hin.
Qed.


(** * Further properties of [get_token] *)

#[local] Arguments omap : simpl nomatch.

Section AnyImplementationMore.

Context {W : Type} (h : Handler W).

(** X1: the steps of a call happen in the order of the source and each at
    most once: flag read, client initialisation, cache read, lazy load,
    selector reads, account resolution, access-token lookup, refresh-token
    enumeration, exchange. *)
Theorem steps_in_source_order scopes claims tenant_id enable_cae kwargs w :
  let r := run h (get_token scopes claims tenant_id enable_cae kwargs) w in
  StronglySorted lt (stage <$> log r).
Proof.
  all_paths h; repeat constructor; lia.
Qed.


(** X2: where an exception of [get_token] comes from: it is the
    [ValueError] of the scope check, raised before any call; or the
    [CredentialUnavailableError] raised after a lazy load that gave no
    cache; or the one raised after an empty refresh-token enumeration,
    worded with that account's username; or else it is the exception the
    last call on [self] raised, unchanged. *)
Theorem errors_are_own_or_propagated scopes claims tenant_id enable_cae
    kwargs w e :
  let r := run h (get_token scopes claims tenant_id enable_cae kwargs) w in
  outcome r = Raised e ->
  (scopes = [] ∧ log r = []
   ∧ e = ValueError "'get_token' requires at least one scope")
  ∨ (loads (log r) = [(enable_cae, Returned None)]
     ∧ e = CredentialUnavailableError "Shared token cache unavailable")
  ∨ (∃ account,
       refresh_lookups (log r) = [(account, Returned [])]
       ∧ e = CredentialUnavailableError
               (NO_TOKEN_format (account !! "username")))
  ∨ last (log r) ≫= raised_by = Some e.
Proof.
  all_paths h; intros; simplify_eq; eauto 10.
Qed.

(** X3: where a token returned by [get_token] comes from: it is the cached
    access token the lookup found, and then nothing was exchanged; or the
    lookup found none and it is the token the one exchange answered. *)
Theorem token_is_cached_or_exchanged scopes claims tenant_id enable_cae
    kwargs w tok :
  let r := run h (get_token scopes claims tenant_id enable_cae kwargs) w in
  outcome r = Returned tok ->
  (∃ account,
     access_lookups (log r) = [(account, Returned (Some tok))]
     ∧ exchanges (log r) = [])
  ∨ (∃ account args,
       access_lookups (log r) = [(account, Returned None)]
       ∧ exchanges (log r) = [(args, Returned tok)]).
Proof.
  all_paths h; intros; simplify_eq; eauto 10.
Qed.

(** X4: the client is initialised on demand: [_initialize_client] is
    called exactly once when [self._client_initialized] reads false and not
    at all when it reads true. *)
Theorem client_initialised_on_demand scopes claims tenant_id enable_cae
    kwargs w initialized :
  let r := run h (get_token scopes claims tenant_id enable_cae kwargs) w in
  flag_reads (log r) = [Returned initialized] ->
  length (client_inits (log r)) = if initialized then 0%nat else 1%nat.
Proof.
  all_paths h; intros; by simplify_eq.
Qed.

(** X5: the cache attribute read is the one the flag selects; a cache that
    reads as loaded is never loaded again, and one that reads as [None] is
    loaded exactly once, with the same flag. *)
Theorem loaded_cache_is_not_reloaded scopes claims tenant_id enable_cae
    kwargs w which slot :
  let r := run h (get_token scopes claims tenant_id enable_cae kwargs) w in
  cache_reads (log r) = [(which, Returned slot)] ->
  which = enable_cae
  ∧ match slot with
    | Some _ => loads (log r) = []
    | None => ∃ o, loads (log r) = [(enable_cae, o)]
    end.
Proof.
  all_paths h; intros; simplify_eq/=; split; eauto.
Qed.

(** X6: the account is resolved with the credential's configuration: the
    username and tenant passed to [_get_account] are what [self._username]
    and [self._tenant_id] read as, and the flag is the request's
    [enable_cae]; the [tenant_id] of the request is not among them. *)
Theorem account_selected_by_configuration scopes claims tenant_id enable_cae
    kwargs w username tenant is_cae :
  let r := run h (get_token scopes claims tenant_id enable_cae kwargs) w in
  account_requests (log r) = [(username, tenant, is_cae)] ->
  username_reads (log r) = [Returned username]
  ∧ tenant_reads (log r) = [Returned tenant]
  ∧ is_cae = enable_cae.
Proof.
  all_paths h; intros; by simplify_eq.
Qed.

(** X7: the claims, the tenant and the keyword arguments of a request play
    no part before the exchange: two requests for the same scopes and flag
    make the same calls and get the same answers, the exchange apart. *)
Theorem request_details_idle_before_exchange scopes claims tenant_id claims'
    tenant_id' enable_cae kwargs kwargs' w :
  List.filter not_exchange
    (log (run h (get_token scopes claims' tenant_id' enable_cae kwargs') w))
  = List.filter not_exchange
      (log (run h (get_token scopes claims tenant_id enable_cae kwargs) w)).
Proof.
  all_paths h; done.
Qed.

(** X8: an exchange is a last resort: it is made only after the
    access-token lookup found nothing, and with the first refresh token
    enumerated for the very account that lookup was made for. *)
Theorem exchange_follows_failed_lookup scopes claims tenant_id enable_cae
    kwargs w args o :
  let r := run h (get_token scopes claims tenant_id enable_cae kwargs) w in
  (args, o) ∈ exchanges (log r) ->
  ∃ account rest,
    access_lookups (log r) = [(account, Returned None)]
    ∧ refresh_lookups (log r)
      = [(account, Returned (x_refresh_token args :: rest))].
Proof.
  all_paths h; intros Hin;
    repeat (apply elem_of_cons in Hin as [Hin|Hin]);
    try (by apply elem_of_nil in Hin); simplify_eq; eauto.
Qed.

End AnyImplementationMore.

(** * The context-manager methods *)

(** Case analysis on the answer to the call a trace is waiting for. *)
Ltac reply h :=
  match goal with
  | |- context [h ?R ?c ?w] =>
      let E := fresh "E" in
      destruct (h R c w) as [[?|?] ?] eqn:E; simpl in *
  | |- context [match ?x with _ => _ end] =>
      is_var x; destruct x; simpl in *
  end.

Section AnyClient.

Context {W : Type} (h : Oracle ClientCall Exn W).

(** X11: [close()] on the public credential wrapping the internal one is
    its [__exit__] without arguments, which is the internal [__exit__],
    which is the client's: when [self._client] reads [None], nothing is
    called and [close] returns; when it reads a client, that client's
    [__exit__] is called once, with no arguments, and what it raises
    [close] raises; [__enter__] is never called. *)
Theorem close_exits_the_client_if_any w :
  let t := exec h
             (SharedTokenCacheCredentialContext.close
                _SharedTokenCacheCredentialContext.__exit__) w in
  client_enters (events t) = []
  ∧ match client_reads (events t) with
    | [Yes None] => result t = Yes tt ∧ client_exits (events t) = []
    | [Yes (Some _); Yes (Some client)] =>
        ∃ o, client_exits (events t) = [(client, [], o)] ∧ result t = o
    | [Yes (Some _); Yes None] =>
        client_exits (events t) = [] ∧ ∃ e, result t = No e
    | [No e] => client_exits (events t) = [] ∧ result t = No e
    | [Yes (Some _); No e] => client_exits (events t) = [] ∧ result t = No e
    | _ => False
    end.
Proof.
  unfold SharedTokenCacheCredentialContext.close,
    SharedTokenCacheCredentialContext.__exit__,
    _SharedTokenCacheCredentialContext.__exit__, on_client.
  simpl. repeat reply h; eauto.
Qed.

(** X12: [__enter__] on the public credential wrapping the internal one
    enters the client when [self._client] reads one, once, and does
    nothing when it reads [None]; on success it returns the public
    credential itself, not the internal one; it never calls the client's
    [__exit__]. *)
Theorem enter_enters_the_client_if_any w :
  let t := exec h
             (SharedTokenCacheCredentialContext.__enter__
                _SharedTokenCacheCredentialContext.__enter__) w in
  client_exits (events t) = []
  ∧ match client_reads (events t) with
    | [Yes None] =>
        result t = Yes the_wrapper ∧ client_enters (events t) = []
    | [Yes (Some _); Yes (Some client)] =>
        ∃ o, client_enters (events t) = [(client, o)]
             ∧ result t = match o with
                          | Yes _ => Yes the_wrapper
                          | No e => No e
                          end
    | [Yes (Some _); Yes None] =>
        client_enters (events t) = [] ∧ ∃ e, result t = No e
    | [No e] => client_enters (events t) = [] ∧ result t = No e
    | [Yes (Some _); No e] => client_enters (events t) = [] ∧ result t = No e
    | _ => False
    end.
Proof.
  unfold SharedTokenCacheCredentialContext.__enter__,
    _SharedTokenCacheCredentialContext.__enter__, on_client.
  simpl. repeat reply h; eauto.
Qed.

End AnyClient.

(** * Traces of programs *)

Section Traces.

Context {E : Type -> Type} {X W : Type} (h : Oracle E X W).

Lemma exec_then {A B} (p : Tree E X A) (f : A -> Tree E X B) w :
  exec h (p ≫= f) w
  = match result (exec h p w) with
    | Yes a =>
        preceded (events (exec h p w))
          (exec h (f a) (world (exec h p w)))
    | No x => mkTrace (No x) (world (exec h p w)) (events (exec h p w))
    end.
Proof.
  unfold mbind, Tree_bind. revert w.
  induction p as [a|x|R c k IH]; intros w; cbn [then_ exec].
  - unfold preceded. cbn. by destruct (exec h (f a) w).
  - done.
  - destruct (h R c w) as [o w1]. rewrite IH.
    destruct (result (exec h (k o) w1)) eqn:Hr; unfold preceded; cbn;
      by rewrite ?Hr.
Qed.

Lemma exec_try_except {A} (p : Tree E X A) (handler : X -> Tree E X A) w :
  exec h (try_except p handler) w
  = match result (exec h p w) with
    | Yes a => exec h p w
    | No x =>
        preceded (events (exec h p w))
          (exec h (handler x) (world (exec h p w)))
    end.
Proof.
  revert w. induction p as [a|x|R c k IH]; intros w; cbn [try_except exec].
  - done.
  - unfold preceded. cbn. by destruct (exec h (handler x) w).
  - destruct (h R c w) as [o w1]. rewrite IH.
    destruct (result (exec h (k o) w1)) eqn:Hr; unfold preceded; cbn;
      by rewrite ?Hr.
Qed.

Lemma exec_then_assoc {A B C} (p : Tree E X A) (f : A -> Tree E X B)
    (g : B -> Tree E X C) w :
  exec h ((p ≫= f) ≫= g) w = exec h (p ≫= (fun a => f a ≫= g)) w.
Proof.
  rewrite !exec_then.
  destruct (result (exec h p w)) as [a|x] eqn:Hr; cbn; [|done].
  rewrite exec_then.
  destruct (result (exec h (f a) _)) as [b|x] eqn:Hr'; unfold preceded; cbn;
    by rewrite ?app_assoc.
Qed.

Lemma exec_then_ext {A B} (p : Tree E X A) (f f' : A -> Tree E X B) w :
  (forall a w, exec h (f a) w = exec h (f' a) w) ->
  exec h (p ≫= f) w = exec h (p ≫= f') w.
Proof.
  intros Hf. rewrite !exec_then.
  destruct (result (exec h p w)); by rewrite ?Hf.
Qed.

(** The calls of a program of one sort are of that sort. *)
Lemma exec_only (P : forall R, E R -> Prop) {A} (p : Tree E X A) w :
  only P p ->
  Forall (fun ev => match ev with Occ c _ => P _ c end)
    (events (exec h p w)).
Proof.
  intros Hp. revert w. induction Hp as [a|x|R c k Hc Hk IH]; intros w.
  - constructor.
  - constructor.
  - cbn [exec]. destruct (h R c w) as [o w1]. cbn.
    constructor; [done|apply IH].
Qed.

Lemma only_then (P : forall R, E R -> Prop) {A B} (p : Tree E X A)
    (f : A -> Tree E X B) :
  only P p -> (forall a, only P (f a)) -> only P (p ≫= f).
Proof.
  intros Hp Hf. unfold mbind, Tree_bind.
  induction Hp; cbn [then_]; [done|constructor|constructor; auto].
Qed.

Lemma only_for_each (P : forall R, E R -> Prop) {T} (xs : list T)
    (body : T -> Tree E X unit) :
  (forall x, only P (body x)) -> only P (for_each xs body).
Proof.
  intros Hb. induction xs as [|x xs IH]; cbn [for_each]; [constructor|].
  apply only_then; auto.
Qed.

Lemma only_perform (P : forall R, E R -> Prop) {R} (c : E R) :
  P R c -> only P (perform c : Tree E X R).
Proof.
  intros Hc. constructor; [done|]. intros [r|x]; constructor.
Qed.

End Traces.

(** * The key-value pair sample *)

Section AnyMachine.

Import Sample.

Context {W : Type} (h : Oracle IO PyExn W).

Lemma analyze_in_two_halves __file__ w :
  exec h (analyze_key_value_pairs __file__) w
  = exec h (obtain_result __file__ ≫= show_result) w.
Proof.
  symmetry. unfold obtain_result, analyze_key_value_pairs.
  repeat (rewrite exec_then_assoc; apply exec_then_ext; clear w;
          intros ? w; cbv beta).
  reflexivity.
Qed.

(** *** Writing the result out *)

Lemma print_regions_only regions : only is_print (print_regions regions).
Proof.
  apply only_for_each. intros region. by apply only_perform.
Qed.

Lemma show_result_only res : only is_print (show_result res).
Proof.
  unfold show_result.
  repeat first
    [ apply only_then; [|intros ?]
    | apply only_for_each; intros [? ?]; unfold show_pair
    | apply print_regions_only
    | by apply only_perform
    | constructor
    | case_match ].
Qed.

(** A trace of [print] calls holds nothing else. *)
Lemma prints_hold_nothing_else (l : list (Occurrence IO PyExn)) :
  Forall (fun ev => match ev with Occ c _ => is_print _ c end) l ->
  results l = [] ∧ phases l = [] ∧ environ_lookups l = []
  ∧ opened l = [] ∧ closed l = [].
Proof.
  induction 1 as [|[R c o] l Hc _ IH]; [done|].
  destruct c; try done.
Qed.

Lemma emits_done : emits h (Done tt) [].
Proof. intros w. by split. Qed.

Lemma emits_print line : emits h (perform (print line)) [line].
Proof.
  intros w. cbn. destruct (h unit (print line) w) as [[[]|x] w1]; by cbn.
Qed.

Lemma emits_then p q l1 l2 :
  emits h p l1 -> emits h q l2 -> emits h (p;; q) (l1 ++ l2).
Proof.
  intros Hp Hq w. rewrite exec_then.
  destruct (Hp w) as [Hpre Hall].
  destruct (result (exec h p w)) as [[]|x] eqn:Hr.
  - specialize (Hall eq_refl).
    destruct (Hq (world (exec h p w))) as [Hpre' Hall'].
    unfold preceded, printed in *. cbn. rewrite omap_app, Hall. split.
    + by apply prefix_app.
    + intros Hyes. by rewrite (Hall' Hyes).
  - cbn. split; [|done]. by apply prefix_app_r.
Qed.

Lemma emits_for_each {T} (xs : list T) body (f : T -> list string) :
  (forall x, emits h (body x) (f x)) ->
  emits h (for_each xs body) (flat_map f xs).
Proof.
  intros Hb. induction xs as [|x xs IH]; cbn [for_each flat_map].
  - apply emits_done.
  - by apply emits_then.
Qed.

Lemma print_regions_emits regions :
  emits h (print_regions regions) (region_line <$> regions).
Proof.
  unfold print_regions.
  replace (region_line <$> regions)
    with (flat_map (fun r => [region_line r]) regions).
  - apply emits_for_each. intros r. apply emits_print.
  - induction regions as [|r rs IH]; [done|]. cbn. by rewrite IH.
Qed.

Lemma show_pair_emits entry : emits h (show_pair entry) (pair_lines entry).
Proof.
  destruct entry as [kvp_idx kvp]. unfold show_pair, pair_lines. cbn [fst snd].
  apply (emits_then _ _ [_]); [apply emits_print|].
  apply (emits_then _ _ [_]); [apply emits_print|].
  apply emits_then; [apply print_regions_emits|].
  apply emits_then; [|apply emits_print].
  unfold value_lines. destruct (value kvp) as [v|]; [|apply emits_done].
  apply (emits_then _ _ [_]); [apply emits_print|].
  apply print_regions_emits.
Qed.

Lemma show_result_emits res : emits h (show_result res) (transcript res).
Proof.
  unfold show_result, transcript.
  apply (emits_then _ _ [_]); [apply emits_print|].
  apply (emits_then _ _ [_]); [apply emits_print|].
  apply emits_then; [|apply emits_print].
  apply emits_for_each, show_pair_emits.
Qed.

(** *** Getting the result *)

(** How the first half can end, and what it has done by then. *)
Lemma obtain_result_ends __file__ w :
  let t := exec h (obtain_result __file__) w in
  printed (events t) = []
  ∧ match result t with
    | Yes res =>
        results (events t) = [Yes res]
        ∧ (∃ endpoint api_key,
             environ_lookups (events t)
             = [("DOCUMENTINTELLIGENCE_ENDPOINT", Yes endpoint);
                ("DOCUMENTINTELLIGENCE_API_KEY", Yes api_key)])
        ∧ phases (events t)
          = [Building; Building; Opening; Sending; Closing; Waiting]
        ∧ ∃ f, opened (events t) = [Yes f] ∧ closed (events t) = [f]
    | No e =>
        (results (events t) = [] ∨ results (events t) = [No e])
        ∧ (∀ name e',
             (name, No e') ∈ environ_lookups (events t) ->
             e' = e ∧ phases (events t) = [])
        ∧ (∀ f,
             opened (events t) = [Yes f] ->
             closed (events t) = [f]
             ∧ ∃ tail,
                 phases (events t)
                 = ([Building; Building; Opening; Sending; Closing]
                    ++ tail)%list
                 ∧ (tail = [] ∨ tail = [Waiting]))
    end.
Proof.
  unfold obtain_result, with_. cbn.
  repeat reply h.
  all: repeat split; eauto.
  all: repeat match goal with
         | H : _ ∈ [] |- _ => by apply elem_of_nil in H
         | H : _ ∈ _ :: _ |- _ => apply elem_of_cons in H as [H|H]
         end;
       simplify_eq; eauto.
Qed.

(** X13: a missing setting ends the sample at once: when the lookup of
    [DOCUMENTINTELLIGENCE_ENDPOINT] or of [DOCUMENTINTELLIGENCE_API_KEY] in
    the environment raises, that exception is the outcome, and no
    credential or client is built, no file is opened, nothing is sent and
    nothing is printed. *)
Theorem missing_setting_ends_the_sample __file__ w name e :
  let t := exec h (analyze_key_value_pairs __file__) w in
  (name, No e) ∈ environ_lookups (events t) ->
  result t = No e ∧ phases (events t) = [] ∧ printed (events t) = [].
Proof.
  intros t. subst t. rewrite analyze_in_two_halves, exec_then.
  pose proof (obtain_result_ends __file__ w) as [Hp Hend]. cbv zeta in *.
  destruct (result (exec h (obtain_result __file__) w)) as [res|e0];
    cbn [events result world preceded].
  - destruct Hend as (_ & (endpoint & api_key & Henv) & _).
    destruct (prints_hold_nothing_else _
                (exec_only h is_print _ (world (exec h (obtain_result __file__) w))
                   (show_result_only res))) as (_ & _ & Hnone & _).
    unfold environ_lookups in *. rewrite omap_app, Henv, Hnone. cbn.
    intros Hin. repeat (apply elem_of_cons in Hin as [Hin|Hin]);
      try (by apply elem_of_nil in Hin); by simplify_eq.
  - destruct Hend as (_ & Henv & _). intros Hin.
    destruct (Henv _ _ Hin) as [-> Hph]. done.
Qed.

(** X14: the document is closed on the way out of the [with] block: once
    it has been opened, the file is closed exactly once, after the request
    has been sent, whether sending succeeded or not, and before the result
    is waited for. *)
Theorem document_is_closed_before_waiting __file__ w f :
  let t := exec h (analyze_key_value_pairs __file__) w in
  opened (events t) = [Yes f] ->
  closed (events t) = [f]
  ∧ ∃ tail,
      phases (events t)
      = ([Building; Building; Opening; Sending; Closing] ++ tail)%list
      ∧ (tail = [] ∨ tail = [Waiting]).
Proof.
  intros t. subst t. rewrite analyze_in_two_halves, exec_then.
  pose proof (obtain_result_ends __file__ w) as [Hp Hend]. cbv zeta in *.
  destruct (result (exec h (obtain_result __file__) w)) as [res|e0];
    cbn [events result world preceded].
  - destruct Hend as (_ & _ & Hph & (f0 & Hop & Hcl)).
    destruct (prints_hold_nothing_else _
                (exec_only h is_print _ (world (exec h (obtain_result __file__) w))
                   (show_result_only res))) as (_ & Hph' & _ & Hop' & Hcl').
    unfold opened, closed, phases in *.
    rewrite !omap_app, Hop, Hcl, Hph, Hop', Hcl', Hph'. cbn.
    intros; simplify_eq. split; [done|]. exists [Waiting]. auto.
  - destruct Hend as (_ & _ & Hfile). apply Hfile.
Qed.

(** X15: what is printed follows the result: nothing is printed unless
    waiting for the result gave one; the lines printed then are, in order,
    the first lines of the transcript of that result (two header lines;
    for each pair its number, its key with the regions of the key, its
    value if there is one with the regions of the value, its confidence; a
    closing rule), and all of them when the sample returns. *)
Theorem output_follows_the_result __file__ w :
  let t := exec h (analyze_key_value_pairs __file__) w in
  match results (events t) with
  | [Yes res] =>
      printed (events t) `prefix_of` transcript res
      ∧ (result t = Yes tt -> printed (events t) = transcript res)
  | _ => printed (events t) = [] ∧ ∃ e, result t = No e
  end.
Proof.
  intros t. subst t. rewrite analyze_in_two_halves, exec_then.
  pose proof (obtain_result_ends __file__ w) as [Hp Hend]. cbv zeta in *.
  destruct (result (exec h (obtain_result __file__) w)) as [res|e0];
    cbn [events result world preceded].
  - destruct Hend as (Hres & _).
    destruct (prints_hold_nothing_else _
                (exec_only h is_print _ (world (exec h (obtain_result __file__) w))
                   (show_result_only res))) as (Hres' & _).
    unfold results, printed in *. rewrite !omap_app, Hres, Hres', Hp. cbn.
    apply show_result_emits.
  - destruct Hend as ([Hres|Hres] & _); rewrite Hres; eauto.
Qed.

Lemma pair_lines_length entry :
  length (pair_lines entry) = pair_height entry.2.
Proof.
  destruct entry as [kvp_idx kvp]. unfold pair_lines, pair_height, value_lines.
  cbn [fst snd]. rewrite !length_app. cbn [length].
  rewrite length_fmap.
  destruct (value kvp); cbn [length]; rewrite ?length_fmap; lia.
Qed.

Lemma transcript_length res :
  length (transcript res)
  = (3 + sum_list (pair_height <$> key_value_pairs res))%nat.
Proof.
  unfold transcript, enumerate. rewrite !length_app. cbn [length].
  assert (Hbody : ∀ start l,
            length (flat_map pair_lines (enumerate_from start l))
            = sum_list (pair_height <$> l)).
  { intros start l. revert start.
    induction l as [|kvp l IH]; intros start; [done|].
    cbn [enumerate_from flat_map fmap list_fmap sum_list sum_list_with].
    by rewrite length_app, pair_lines_length, IH. }
  rewrite Hbody. lia.
Qed.

(** X16: the number of [print] calls: a sample that returns has called
    [print] three times (two headers and the closing rule) and, for each
    key-value pair of the result, three times (number, key, confidence),
    once per region of the key and, when the pair has a value, once for
    the value and once per region of the value. *)
Theorem output_height __file__ w :
  let t := exec h (analyze_key_value_pairs __file__) w in
  result t = Yes tt ->
  ∃ res,
    results (events t) = [Yes res]
    ∧ length (printed (events t))
      = (3 + sum_list (pair_height <$> key_value_pairs res))%nat.
Proof.
  intros t. subst t. rewrite analyze_in_two_halves, exec_then.
  pose proof (obtain_result_ends __file__ w) as [Hp Hend]. cbv zeta in *.
  destruct (result (exec h (obtain_result __file__) w)) as [res|e0];
    cbn [events result world preceded]; [|done].
  intros Hyes. exists res.
  destruct Hend as (Hres & _).
  destruct (prints_hold_nothing_else _
              (exec_only h is_print _ (world (exec h (obtain_result __file__) w))
                 (show_result_only res))) as (Hres' & _).
  destruct (show_result_emits res
              (world (exec h (obtain_result __file__) w))) as [_ Hall].
  unfold results, printed in *.
  rewrite !omap_app, Hres, Hres', Hp, (Hall Hyes). cbn [app].
  split; [done|apply transcript_length].
Qed.

(** [contains] is the substring test of [in]. *)
Lemma append_cons a (s t : string) : String a s +:+ t = String a (s +:+ t).
Proof. reflexivity. Qed.

Lemma prefix_is_a_start (needle hay : string) :
  String.prefix needle hay = true <-> ∃ after, hay = needle +:+ after.
Proof.
  revert hay. induction needle as [|a needle IH]; intros [|b hay]; cbn.
  - split; [intros _; by exists EmptyString|done].
  - split; [intros _; by exists (String b hay)|done].
  - split; [done|]. by intros [after Hafter].
  - setoid_rewrite append_cons.
    destruct (Ascii.ascii_dec a b) as [->|Hne].
    + rewrite IH. split; intros [after Hafter]; exists after; congruence.
    + split; [done|]. intros [after Hafter]. congruence.
Qed.

Lemma contains_is_substring (needle hay : string) :
  contains needle hay = true
  <-> ∃ before after, hay = before +:+ needle +:+ after.
Proof.
  induction hay as [|b hay IH]; cbn [contains];
    rewrite orb_true_iff, prefix_is_a_start.
  - split.
    + intros [[after Hafter]|?]; [|done]. by exists EmptyString, after.
    + intros (before & after & Hhay). left.
      destruct before; [by exists after|done].
  - rewrite IH. split.
    + intros [[after Hafter]|(before & after & Hhay)].
      * by exists EmptyString, after.
      * exists (String b before), after. by rewrite append_cons, Hhay.
    + intros (before & after & Hhay). destruct before as [|c before].
      * left. by exists after.
      * right. exists before, after. rewrite append_cons in Hhay.
        congruence.
Qed.

(** *** The script block *)

Section Script.

Variable casefold : string -> string.

(** The handler writes the diagnostic line, if there is one, and ends
    well unless that [print] fails. *)
Lemma report_http_error_ends err w :
  let t := exec h (report_http_error casefold err) w in
  printed (events t) = diagnostic casefold err
  ∧ (length (diagnostic casefold err) <= 1)%nat
  ∧ match result t with
    | Yes _ => True
    | No x => last (events t) ≫= print_failure = Some x
    end.
Proof.
  unfold report_http_error, diagnostic.
  destruct (error err) as [inner|].
  - repeat case_bool_decide; simplify_eq; cbn; repeat reply h; try done;
      cbn; auto with lia; congruence.
  - destruct (contains _ _); cbn; repeat reply h; cbn; auto with lia.
Qed.

(** X17: the script block never swallows an error.  When the guarded
    block returns, so does the script, having done nothing more.  When it
    raises, the script raises too, after everything the block did: the
    same exception, unless it is an [HttpResponseError] and printing the
    diagnostic line failed, in which case the exception of that [print];
    and for an exception that is not an [HttpResponseError] the script
    does nothing more at all. *)
Theorem script_raises_again __file__ w :
  let t0 := exec h (try_block __file__) w in
  let t := exec h (main casefold __file__) w in
  match result t0 with
  | Yes _ => t = t0
  | No e =>
      events t0 `prefix_of` events t
      ∧ (∃ e',
           result t = No e'
           ∧ (e' = e ∨ last (events t) ≫= print_failure = Some e'))
      ∧ match e with
        | HttpResponseError _ => True
        | _ => t = t0
        end
  end.
Proof.
  intros t0 t. subst t t0. unfold main. rewrite exec_try_except.
  destruct (exec h (try_block __file__) w) as [res0 w0 evs0] eqn:Ht0.
  cbn [result world events].
  destruct res0 as [[]|e]; [done|].
  assert (Hplain : preceded evs0
                     (exec h (Throw e : Script unit) w0)
                   = mkTrace (No e) w0 evs0).
  { unfold preceded. cbn. by rewrite app_nil_r. }
  destruct e as [name|err|cls msg]; rewrite ?Hplain.
  - repeat split; eauto.
  - rewrite exec_then.
    pose proof (report_http_error_ends err w0) as (_ & _ & Hlast).
    cbv zeta in Hlast.
    destruct (result (exec h (report_http_error casefold err) w0))
      as [[]|x] eqn:Hr; unfold preceded; cbn [result world events].
    + split; [by apply prefix_app_r|]. split; [|done].
      exists (HttpResponseError err). split; [done|by left].
    + split; [by apply prefix_app_r|]. split; [|done].
      exists x. split; [done|right].
      destruct (events (exec h (report_http_error casefold err) w0))
        as [|ev evs] eqn:Hev; [done|].
      by rewrite last_app_cons in *.
  - repeat split; eauto.
Qed.


End Script.

End AnyMachine.

(** * The further properties on the scenarios *)

Lemma errors_are_own_or_propagated_witness :
  let r := run self (get_token service None None false []) stale_world in
  let e := CredentialUnavailableError
             "no usable refresh token for account alice@example.com" in
  outcome r = Raised e
  ∧ ((service = [] ∧ log r = []
      ∧ e = ValueError "'get_token' requires at least one scope")
     ∨ (loads (log r) = [(false, Returned None)]
        ∧ e = CredentialUnavailableError "Shared token cache unavailable")
     ∨ (∃ account,
          refresh_lookups (log r) = [(account, Returned [])]
          ∧ e = CredentialUnavailableError
                  (NO_TOKEN_format (account !! "username")))
     ∨ last (log r) ≫= raised_by = Some e).
Proof.
  assert (H : outcome
                (run self (get_token service None None false [])
                   stale_world)
              = Raised
                  (CredentialUnavailableError
                     "no usable refresh token for account alice@example.com"))
    by reflexivity.
  split; [exact H|].
  exact (errors_are_own_or_propagated self service None None false []
           stale_world _ H).
Defined.

Lemma token_is_cached_or_exchanged_witness :
  let r := run self (get_token service None None false []) alice_world in
  let tok := mkAccessToken "fresh:None" 9000 in
  outcome r = Returned tok
  ∧ ((∃ account,
        access_lookups (log r) = [(account, Returned (Some tok))]
        ∧ exchanges (log r) = [])
     ∨ (∃ account args,
          access_lookups (log r) = [(account, Returned None)]
          ∧ exchanges (log r) = [(args, Returned tok)])).
Proof.
  assert (H : outcome
                (run self (get_token service None None false [])
                   alice_world)
              = Returned (mkAccessToken "fresh:None" 9000)) by reflexivity.
  split; [exact H|].
  exact (token_is_cached_or_exchanged self service None None false []
           alice_world _ H).
Defined.

Lemma client_initialised_on_demand_witness :
  let r := run self (get_token service None None false []) alice_world in
  flag_reads (log r) = [Returned false]
  ∧ length (client_inits (log r)) = 1%nat.
Proof.
  assert (H : flag_reads
                (log (run self (get_token service None None false [])
                        alice_world))
              = [Returned false]) by reflexivity.
  split; [exact H|].
  exact (client_initialised_on_demand self service None None false []
           alice_world false H).
Defined.

Lemma loaded_cache_is_not_reloaded_witness :
  let r := run self (get_token service None None false []) live_world in
  cache_reads (log r) = [(false, Returned (Some live_cache))]
  ∧ false = false
  ∧ loads (log r) = [].
Proof.
  assert (H : cache_reads
                (log (run self (get_token service None None false [])
                        live_world))
              = [(false, Returned (Some live_cache))]) by reflexivity.
  split; [exact H|].
  exact (loaded_cache_is_not_reloaded self service None None false []
           live_world false (Some live_cache) H).
Defined.

Lemma account_selected_by_configuration_witness :
  let r := run self
             (get_token service None (Some "fabrikam") false [])
             live_world in
  account_requests (log r) = [(Some "alice@example.com", None, false)]
  ∧ username_reads (log r) = [Returned (Some "alice@example.com")]
  ∧ tenant_reads (log r) = [Returned None]
  ∧ false = false.
Proof.
  assert (H : account_requests
                (log (run self
                        (get_token service None (Some "fabrikam") false [])
                        live_world))
              = [(Some "alice@example.com", None, false)]) by reflexivity.
  split; [exact H|].
  exact (account_selected_by_configuration self service None
           (Some "fabrikam") false [] live_world _ _ _ H).
Defined.

Lemma exchange_follows_failed_lookup_witness :
  let r := run self (get_token service None None false []) alice_world in
  let args := mkExchangeArgs service "rt-1" None None [] in
  (args, Returned (mkAccessToken "fresh:None" 9000)) ∈ exchanges (log r)
  ∧ ∃ account rest,
      access_lookups (log r) = [(account, Returned None)]
      ∧ refresh_lookups (log r) = [(account, Returned ("rt-1" :: rest))].
Proof.
  assert (H : (mkExchangeArgs service "rt-1" None None [],
               Returned (mkAccessToken "fresh:None" 9000))
              ∈ exchanges
                  (log (run self (get_token service None None false [])
                          alice_world)))
    by apply list_elem_of_here.
  split; [exact H|].
  exact (exchange_follows_failed_lookup self service None None false []
           alice_world _ _ H).
Defined.

(** Closing a credential that never built a client calls nothing; closing
    one that holds client 7 exits that client. *)
Example close_on_steady_credential :
  events
    (exec steady
       (SharedTokenCacheCredentialContext.close
          _SharedTokenCacheCredentialContext.__exit__) None)
  = [Occ self_client (Yes None)]
  ∧ client_exits
      (events
         (exec steady
            (SharedTokenCacheCredentialContext.close
               _SharedTokenCacheCredentialContext.__exit__) (Some 7%nat)))
    = [(7%nat, [], Yes tt)].
Proof. split; reflexivity. Qed.

Lemma missing_setting_ends_the_sample_witness :
  let t := exec (Sample.canned (fun _ => None) (Yes Sample.sample_result))
             (Sample.analyze_key_value_pairs "sample.py") tt in
  let e := Sample.KeyError "DOCUMENTINTELLIGENCE_ENDPOINT" in
  ("DOCUMENTINTELLIGENCE_ENDPOINT", No e)
  ∈ Sample.environ_lookups (events t)
  ∧ result t = No e
  ∧ Sample.phases (events t) = []
  ∧ Sample.printed (events t) = [].
Proof.
  assert (H : ("DOCUMENTINTELLIGENCE_ENDPOINT",
               No (Sample.KeyError "DOCUMENTINTELLIGENCE_ENDPOINT"))
              ∈ Sample.environ_lookups
                  (events
                     (exec
                        (Sample.canned (fun _ => None)
                           (Yes Sample.sample_result))
                        (Sample.analyze_key_value_pairs "sample.py") tt)))
    by apply list_elem_of_here.
  split; [exact H|].
  exact (missing_setting_ends_the_sample _ "sample.py" tt _ _ H).
Defined.

Lemma document_is_closed_before_waiting_witness :
  let t := exec
             (Sample.canned Sample.settings
                (No (Sample.OtherError "ServiceRequestError" "timeout")))
             (Sample.analyze_key_value_pairs "sample.py") tt in
  Sample.opened (events t) = [Yes 3%nat]
  ∧ Sample.closed (events t) = [3%nat]
  ∧ ∃ tail,
      Sample.phases (events t)
      = ([Sample.Building; Sample.Building; Sample.Opening; Sample.Sending;
          Sample.Closing] ++ tail)%list
      ∧ (tail = [] ∨ tail = [Sample.Waiting]).
Proof.
  assert (H : Sample.opened
                (events
                   (exec
                      (Sample.canned Sample.settings
                         (No (Sample.OtherError "ServiceRequestError"
                                "timeout")))
                      (Sample.analyze_key_value_pairs "sample.py") tt))
              = [Yes 3%nat]) by reflexivity.
  split; [exact H|].
  exact (document_is_closed_before_waiting _ "sample.py" tt 3%nat H).
Defined.

Lemma output_height_witness :
  let t := exec (Sample.canned Sample.settings (Yes Sample.sample_result))
             (Sample.analyze_key_value_pairs "sample.py") tt in
  result t = Yes tt
  ∧ ∃ res,
      Sample.results (events t) = [Yes res]
      ∧ length (Sample.printed (events t))
        = (3 + sum_list (Sample.pair_height <$> Sample.key_value_pairs res))%nat.
Proof.
  assert (H : result
                (exec
                   (Sample.canned Sample.settings (Yes Sample.sample_result))
                   (Sample.analyze_key_value_pairs "sample.py") tt)
              = Yes tt) by reflexivity.
  split; [exact H|].
  exact (output_height _ "sample.py" tt H).
Defined.

(** The sample on the canned machine: thirteen [print] calls for the two
    pairs. *)
Example sample_output :
  Sample.printed
    (events
       (exec (Sample.canned Sample.settings (Yes Sample.sample_result))
          (Sample.analyze_key_value_pairs "sample.py") tt))
  = ["----Key-value Pair detected in the document----";
     "Detected 2 Key-value Pairs:";
     "- Key-value Pair #0: ";
     "    Key 'Name'";
     "        page number 1, region: [1.0, 2.0]";
     "        page number 2, region: [3.0, 4.0]";
     "    Value: Ada";
     "        page number 1, region: [5.0]";
     "    Confidence: 0.9";
     "- Key-value Pair #1: ";
     "    Key 'Date'";
     "    Confidence: 0.5";
     "----------------------------------------"].
Proof. reflexivity. Qed.

